(** * OAS3-Tools: the schema normaliser and flattener, embedded in Rocq

    The development follows the three scripts that hold the algorithms:

    - [extract_schema_to_csv.py]: JSON pointer resolution, the
      conservative merge, [$ref] dereferencing, composite flattening and
      the walk that emits one record per addressable element;
    - [oas3_data_dictionary_agent.py]: the shallow merge and the
      combinator expansion, which work on shared Python objects and are
      therefore modelled over an explicit object store;
    - [compile_http_errors_from_oas.py]: row de-duplication, sorting and
      grouping by status.

    Python values are modelled as they are at run time after [json.load]:
    [None], booleans, integers, strings, lists and insertion-ordered
    dictionaries with string keys.  Floating-point numbers are left out.
    A string is the sequence of its characters, each a code point below
    256.  Exceptions are values of [exn]; a function that can raise returns
    a [result]. *)

From stdpp Require Import base list strings gmap sorting.
From Stdlib Require Import Ascii DecimalString.
From Stdlib Require OrderedTypeEx.

Set Warnings "-register-all,-clear-no-such-hyp".
Local Open Scope Z_scope.

(** ** Python values and exceptions *)

Module Py.

Inductive key_msg :=
| NotFound            (* "JSON pointer not found: ..." *)
| ExpectedIntegerIndex (* "JSON pointer expected integer index for array: ..." *)
| IndexOutOfRange     (* "JSON pointer array index out of range: ..." *)
| NonContainer.       (* "JSON pointer cannot descend into non-container: ..." *)

Inductive exn :=
| ValueError
| KeyError (m : key_msg)
| TypeError
| AttributeError
| RecursionError.

Inductive result (A : Type) :=
| Ok (a : A)
| Raise (e : exn).
Arguments Ok {A} a.
Arguments Raise {A} e.

Definition bind {A B} (m : result A) (k : A -> result B) : result B :=
  match m with
  | Ok a => k a
  | Raise e => Raise e
  end.

Inductive json :=
| JNull
| JBool (b : bool)
| JInt (z : Z)
| JStr (s : string)
| JList (l : list json)
| JDict (d : list (string * json)).

(** *** Strings *)

Definition chr (n : nat) : Ascii.ascii := Ascii.ascii_of_nat n.
Definition ord (c : Ascii.ascii) : nat := Ascii.nat_of_ascii c.

Definition char_in (c : Ascii.ascii) (chars : string) : bool :=
  existsb (Ascii.eqb c) (String.list_ascii_of_string chars).

(** [s.startswith(p)] *)
Definition startswith (s p : string) : bool := String.prefix p s.

(** [s.endswith(p)] *)
Definition endswith (s p : string) : bool :=
  String.prefix (String.rev p) (String.rev s).

(** [s.lstrip(chars)]: drops every leading character that occurs in
    [chars]. *)
Fixpoint lstrip (chars s : string) : string :=
  match s with
  | EmptyString => EmptyString
  | String c s' => if char_in c chars then lstrip chars s' else s
  end.

(** [s.split(sep)] for a one-character separator; the empty string splits
    into one empty piece. *)
Fixpoint split (sep : Ascii.ascii) (s : string) : list string :=
  match s with
  | EmptyString => [EmptyString]
  | String c s' =>
      if Ascii.eqb c sep then EmptyString :: split sep s'
      else match split sep s' with
           | p :: ps => String c p :: ps
           | [] => [String c EmptyString]
           end
  end.

(** [s.replace(pat, rep)] for a non-empty pattern: occurrences are replaced
    from the left and do not overlap.  [skip] counts the characters of a
    matched occurrence that are still to be dropped. *)
Fixpoint replace_from (pat rep s : string) (skip : nat) : string :=
  match s with
  | EmptyString => EmptyString
  | String c s' =>
      match skip with
      | S k => replace_from pat rep s' k
      | O =>
          if String.prefix pat s
          then rep +:+ replace_from pat rep s' (String.length pat - 1)
          else String c (replace_from pat rep s' 0)
      end
  end.

Definition replace (pat rep s : string) : string := replace_from pat rep s 0.

(** [sub in s] on strings. *)
Fixpoint contains (sub s : string) : bool :=
  String.prefix sub s ||
  match s with
  | EmptyString => false
  | String _ s' => contains sub s'
  end.

(** Whitespace as [str.strip()] sees it, among code points below 256. *)
Definition is_space (c : Ascii.ascii) : bool :=
  let n := ord c in
  ((9 <=? n) && (n <=? 13) || (28 <=? n) && (n <=? 32)
   || (n =? 133) || (n =? 160))%nat.



(** *** Integers from text

    [int(s)] goes through three steps of the interpreter.  Text that is
    not pure ASCII is rewritten first: a character below 127 stays, a
    whitespace character from 127 on becomes a space, and at the first
    other character the text is cut and ends in [?] (no code point from
    127 to 255 is a decimal digit).  The parser then skips the whitespace
    of the C locale on both sides, reads one optional sign and reads
    digits that may be grouped with single underscores.  A literal of more
    than 4300 digits is refused, which is the default limit of the
    interpreter. *)

Definition is_ascii (s : string) : bool :=
  forallb (fun c => (ord c <? 128)%nat) (String.list_ascii_of_string s).

Fixpoint to_ascii_space (s : string) : string :=
  match s with
  | EmptyString => EmptyString
  | String c s' =>
      if (ord c <? 127)%nat then String c (to_ascii_space s')
      else if is_space c then String " " (to_ascii_space s')
      else "?"
  end.

(** Whitespace as the parser of integers sees it. *)
Definition is_c_space (c : Ascii.ascii) : bool :=
  let n := ord c in ((9 <=? n) && (n <=? 13) || (n =? 32))%nat.

Fixpoint lstrip_c_space (s : string) : string :=
  match s with
  | String c s' => if is_c_space c then lstrip_c_space s' else s
  | EmptyString => EmptyString
  end.

Definition strip_c_space (s : string) : string :=
  String.rev (lstrip_c_space (String.rev (lstrip_c_space s))).

Definition digit_of (c : Ascii.ascii) : option Z :=
  let n := ord c in
  if ((48 <=? n) && (n <=? 57))%nat then Some (Z.of_nat n - 48) else None.

(** Digits of an integer literal: one digit, then digits each optionally
    preceded by a single underscore. [acc] is the value read so far;
    [after_us] says that the previous character was an underscore. *)
Fixpoint int_digits (s : string) (acc : Z) (after_us : bool) : option Z :=
  match s with
  | EmptyString => if after_us then None else Some acc
  | String c s' =>
      match digit_of c with
      | Some d => int_digits s' (10 * acc + d) false
      | None =>
          if Ascii.eqb c "_"%char
          then if after_us then None else int_digits s' acc true
          else None
      end
  end.

Definition MAX_STR_DIGITS : Z := 4300.

(** The number of digits of a literal, underscores not counted. *)
Fixpoint count_digits (s : string) : Z :=
  match s with
  | EmptyString => 0
  | String c s' =>
      (match digit_of c with Some _ => 1 | None => 0 end) + count_digits s'
  end.

Definition int_unsigned (s : string) : option Z :=
  match s with
  | String c s' =>
      match digit_of c with
      | Some d =>
          match int_digits s' d false with
          | Some z => if MAX_STR_DIGITS <? count_digits s then None else Some z
          | None => None
          end
      | None => None
      end
  | EmptyString => None
  end.

(** [int(s)] on a string: [None] stands for [ValueError]. *)
Definition int (s : string) : option Z :=
  let s := if is_ascii s then s else to_ascii_space s in
  match strip_c_space s with
  | String "+" s' => int_unsigned s'
  | String "-" s' => Z.opp <$> int_unsigned s'
  | s' => int_unsigned s'
  end.

(** [str(n)] on an integer of at most 4300 digits, the only ones that
    [json.load] and [int] give. *)
Definition str_of_Z (z : Z) : string := NilZero.string_of_int (Z.to_int z).

(** [sep.join(parts)] *)
Fixpoint join (sep : string) (parts : list string) : string :=
  match parts with
  | [] => EmptyString
  | [p] => p
  | p :: ps => p +:+ sep +:+ join sep ps
  end.

(** Comparison of strings by code points, as [<] and [<=] on [str]. *)
Definition str_le (a b : string) : bool := String.leb a b.

(** *** Dictionaries: insertion-ordered association lists *)

Section dict.
Context {V : Type}.

(** [d.get(k)] *)
Fixpoint get (d : list (string * V)) (k : string) : option V :=
  match d with
  | [] => None
  | (k', v) :: d' => if String.eqb k' k then Some v else get d' k
  end.

(** [k in d] *)
Definition has (d : list (string * V)) (k : string) : bool :=
  match get d k with Some _ => true | None => false end.

(** [d[k] = v]: an existing key keeps its position. *)
Fixpoint set (d : list (string * V)) (k : string) (v : V) : list (string * V) :=
  match d with
  | [] => [(k, v)]
  | (k', v') :: d' =>
      if String.eqb k' k then (k, v) :: d' else (k', v') :: set d' k v
  end.

(** [d.pop(k, None)] *)
Fixpoint pop (d : list (string * V)) (k : string) : list (string * V) :=
  match d with
  | [] => []
  | (k', v') :: d' =>
      if String.eqb k' k then d' else (k', v') :: pop d' k
  end.

Definition keys (d : list (string * V)) : list string := map fst d.
End dict.

(** *** Truth value, equality, hashing *)

(** [bool(v)] *)
Definition truthy (v : json) : bool :=
  match v with
  | JNull => false
  | JBool b => b
  | JInt z => negb (z =? 0)
  | JStr s => negb (String.eqb s EmptyString)
  | JList l => match l with [] => false | _ => true end
  | JDict d => match d with [] => false | _ => true end
  end.

(** Values that can be put in a [set] or used as a dictionary key. *)
Definition hashable (v : json) : bool :=
  match v with
  | JList _ | JDict _ => false
  | _ => true
  end.

Definition Z_of_bool (b : bool) : Z := if b then 1 else 0.

(** [a == b] on hashable values: booleans compare equal to the integers 0
    and 1. *)
Definition scalar_eq (a b : json) : bool :=
  match a, b with
  | JNull, JNull => true
  | JBool x, JBool y => Bool.eqb x y
  | JBool x, JInt y => Z_of_bool x =? y
  | JInt x, JBool y => x =? Z_of_bool y
  | JInt x, JInt y => x =? y
  | JStr x, JStr y => String.eqb x y
  | _, _ => false
  end.

(** [s.add(x)]: an element equal to one already present is not added. *)
Definition set_add (s : list json) (x : json) : list json :=
  if existsb (scalar_eq x) s then s else s ++ [x].

(** [s.update(l)]; [TypeError] on an unhashable element. *)
Fixpoint set_update (s : list json) (l : list json) : result (list json) :=
  match l with
  | [] => Ok s
  | x :: l' =>
      if hashable x then set_update (set_add s x) l' else Raise TypeError
  end.

(** *** Sorting *)

(** [sorted] is stable; insertion from the right keeps equal keys in their
    original order. *)
Section sorting.
Context {A : Type} (le : A -> A -> bool).

Fixpoint insert_sorted (x : A) (l : list A) : list A :=
  match l with
  | [] => [x]
  | y :: l' => if le x y then x :: l else y :: insert_sorted x l'
  end.

Definition sorted (l : list A) : list A := foldr insert_sorted [] l.
End sorting.

End Py.

Notation "'let*' x ':=' m 'in' k" :=
  (Py.bind m (fun x => k))
  (at level 10, x pattern, m at level 100, k at level 200).

Import Py.

(** [json.dumps(v, ensure_ascii=False)] *)
Module Json.

Definition hex_digit (n : nat) : ascii :=
  if (n <? 10)%nat then chr (48 + n) else chr (87 + n).

Definition quote_char : ascii := chr 34.

(** One character inside a JSON string literal. *)
Definition escape_char (c : ascii) : string :=
  let n := ord c in
  if (n =? 34)%nat then String "\" (String quote_char EmptyString)
  else if (n =? 92)%nat then "\\"
  else if (n =? 10)%nat then "\n"
  else if (n =? 13)%nat then "\r"
  else if (n =? 9)%nat then "\t"
  else if (n =? 8)%nat then "\b"
  else if (n =? 12)%nat then "\f"
  else if (n <? 32)%nat
       then "\u00" +:+ String (hex_digit (n / 16)) (String (hex_digit (n mod 16)) EmptyString)
       else String c EmptyString.

Fixpoint escape (s : string) : string :=
  match s with
  | EmptyString => EmptyString
  | String c s' => escape_char c +:+ escape s'
  end.

Definition dumps_str (s : string) : string :=
  String quote_char (escape s +:+ String quote_char EmptyString).

Fixpoint dumps (v : json) : string :=
  match v with
  | JNull => "null"
  | JBool true => "true"
  | JBool false => "false"
  | JInt z => str_of_Z z
  | JStr s => dumps_str s
  | JList l => "[" +:+ join ", " (map dumps l) +:+ "]"
  | JDict d =>
      "{" +:+ join ", " (map (fun '(k, x) => dumps_str k +:+ ": " +:+ dumps x) d)
          +:+ "}"
  end.

End Json.

(** ** extract_schema_to_csv.py *)

Module Csv.

(** *** JSON pointer resolver *)

(** One turn of the loop over [parts]. *)
Definition pointer_step (cur : json) (part : string) : result json :=
  let part := replace "~0" "~" (replace "~1" "/" part) in
  match cur with
  | JDict d =>
      match get d part with
      | Some v => Ok v
      | None => Raise (KeyError NotFound)
      end
  | JList l =>
      match int part with
      | None => Raise (KeyError ExpectedIntegerIndex)
      | Some idx =>
          if (0 <=? idx) && (idx <? Z.of_nat (length l))
          then match l !! Z.to_nat idx with
               | Some v => Ok v
               | None => Raise (KeyError IndexOutOfRange)
               end
          else Raise (KeyError IndexOutOfRange)
      end
  | _ => Raise (KeyError NonContainer)
  end.

Fixpoint descend (cur : json) (parts : list string) : result json :=
  match parts with
  | [] => Ok cur
  | part :: parts' => let* cur' := pointer_step cur part in descend cur' parts'
  end.

Definition resolve_json_pointer (doc : json) (pointer : string) : result json :=
  if negb (startswith pointer "#") then Raise ValueError
  else if String.eqb pointer "#" then Ok doc
  else descend doc (split "/" (lstrip "#/" pointer)).

(** *** Constraint merge helpers *)

Definition CONSTRAINT_KEYS : list string :=
  ["pattern"; "minLength"; "maxLength"; "minimum"; "maximum";
   "exclusiveMinimum"; "exclusiveMaximum"; "multipleOf"; "minItems";
   "maxItems"; "uniqueItems"; "format"; "enum"; "default"; "example";
   "const"; "required"].
Definition TYPE_KEYS : list string := ["type"].
Definition TITLE_DESC_KEYS : list string := ["description"; "x-internal"].
Definition PROPERTIES_KEYS : list string :=
  ["properties"; "items"; "additionalProperties"].

Definition in_keys (k : string) (ks : list string) : bool :=
  existsb (String.eqb k) ks.

Definition merge_enums (values : list json) : result (option (list json)) :=
  let* s :=
    foldl (fun acc v =>
             let* s := acc in
             match v with
             | JList l => set_update s l
             | _ => Ok s
             end) (Ok []) values in
  Ok (match s with [] => None | _ => Some s end).

(** [x or []] *)
Definition or_empty (v : json) : json := if truthy v then v else JList [].

(** [set(v)] *)
Definition set_of (v : json) : result (list json) :=
  match v with
  | JList l => set_update [] l
  | JStr s =>
      set_update [] (map (fun c => JStr (String c EmptyString))
                         (String.list_ascii_of_string s))
  | JDict d => set_update [] (map JStr (keys d))
  | _ => Raise TypeError
  end.

Definition is_num (v : json) : bool :=
  match v with JBool _ | JInt _ => true | _ => false end.
Definition is_str (v : json) : bool :=
  match v with JStr _ => true | _ => false end.
Definition num_of (v : json) : Z :=
  match v with JBool b => Z_of_bool b | JInt z => z | _ => 0 end.
Definition str_of (v : json) : string :=
  match v with JStr s => s | _ => EmptyString end.

(** [sorted(s)] on the elements of a set: numbers compare with numbers and
    strings with strings; any other pair raises [TypeError]. *)
Definition sorted_values (s : list json) : result (list json) :=
  match s with
  | [] | [_] => Ok s
  | _ =>
      if forallb is_num s
      then Ok (sorted (fun a b => num_of a <=? num_of b) s)
      else if forallb is_str s
      then Ok (sorted (fun a b => str_le (str_of a) (str_of b)) s)
      else Raise TypeError
  end.

Definition get_or (d : list (string * json)) (k : string) (dflt : json) : json :=
  match get d k with Some v => v | None => dflt end.

(** One turn of the loop [for k, v in b.items()] of [conservative_merge]. *)
Definition merge_item (out : list (string * json)) (k : string) (v : json)
  : result (list (string * json)) :=
  if String.eqb k "enum" then
    let* merged := merge_enums [get_or out "enum" JNull; v] in
    match merged with
    | Some m =>
        Ok (set out "enum"
              (JList (sorted (fun a b => str_le (Json.dumps a) (Json.dumps b)) m)))
    | None => Ok out
    end
  else if String.eqb k "required" then
    let* ra := set_of (or_empty (get_or out "required" (JList []))) in
    let* rb := set_of (or_empty v) in
    match ra, rb with
    | [], [] => Ok out
    | _, _ =>
        let* u := set_update ra rb in
        let* l := sorted_values u in
        Ok (set out "required" (JList l))
    end
  else if negb (has out k) then Ok (set out k v)
  else Ok out.

Fixpoint merge_items (out : list (string * json)) (b : list (string * json))
  : result (list (string * json)) :=
  match b with
  | [] => Ok out
  | (k, v) :: b' => let* out' := merge_item out k v in merge_items out' b'
  end.

(** [out] is the deep copy of [a].  When [a] is not a dictionary the first
    turn of the loop raises; when [b] is not one, [b.items()] does. *)
Definition conservative_merge (a b : json) : result json :=
  match b with
  | JDict items =>
      match a with
      | JDict out => let* out' := merge_items out items in Ok (JDict out')
      | _ =>
          match items with
          | [] => Ok a
          | (k, _) :: _ =>
              if String.eqb k "enum" || String.eqb k "required"
              then Raise AttributeError
              else Raise TypeError
          end
      end
  | _ => Raise AttributeError
  end.

(** *** Schema walker *)

(** [self.ref_cache] *)
Abbreviation cache := (gmap string json).

Definition whitelisted (k : string) : bool :=
  in_keys k (CONSTRAINT_KEYS ++ TYPE_KEYS ++ TITLE_DESC_KEYS ++ PROPERTIES_KEYS).

(** [{k: v for k, v in schema.items() if k != "$ref"}] *)
Definition siblings_of (d : list (string * json)) : list (string * json) :=
  List.filter (fun kv => negb (String.eqb kv.1 "$ref")) d.

(** The argument [n] bounds the depth of nested calls: at depth 0 the
    interpreter raises [RecursionError].  [root] is [self.root]; the cache
    is passed in and handed back. *)
Fixpoint deref (n : nat) (root : json) (schema : json) (c : cache)
  : result (json * cache) :=
  match n with
  | O => Raise RecursionError
  | S n' =>
      match schema with
      | JDict d =>
          match get d "$ref" with
          | None => Ok (schema, c)
          | Some ref =>
              let* (base, c) :=
                match ref with
                | JStr r =>
                    match c !! r with
                    | Some cached => Ok (cached, c)
                    | None =>
                        let* target := resolve_json_pointer root r in
                        let* (base, c) :=
                          match target with
                          | JDict _ => deref n' root target c
                          | _ => Ok (target, c)
                          end in
                        Ok (base, <[r := base]> c)
                    end
                | JList _ | JDict _ => Raise TypeError
                | _ => Raise AttributeError
                end in
              let* merged := conservative_merge base (JDict (siblings_of d)) in
              Ok (merged, c)
          end
      | JStr s => if contains "$ref" s then Raise TypeError else Ok (schema, c)
      | JList l =>
          if existsb (scalar_eq (JStr "$ref")) l then Raise TypeError
          else Ok (schema, c)
      | _ => Raise TypeError
      end
  end.

(** [key in schema and isinstance(schema[key], list)] *)
Definition composite_branches (schema : json) (key : string)
  : result (option (list json)) :=
  match schema with
  | JDict d =>
      match get d key with
      | Some (JList subs) => Ok (Some subs)
      | _ => Ok None
      end
  | JStr s => if contains key s then Raise TypeError else Ok None
  | JList l =>
      if existsb (scalar_eq (JStr key)) l then Raise TypeError else Ok None
  | _ => Raise TypeError
  end.

(** [{k: v for k, v in sub.items() if k in (CONSTRAINT_KEYS | ...)}] *)
Definition whitelist_items (sub : json) : result json :=
  match sub with
  | JDict d => Ok (JDict (List.filter (fun kv => whitelisted kv.1) d))
  | _ => Raise AttributeError
  end.

Fixpoint flatten_composites (n : nat) (root : json) (schema : json) (c : cache)
  : result (json * cache) :=
  match n with
  | O => Raise RecursionError
  | S n' =>
      let* (schema, c) := deref n' root schema c in
      foldl (fun acc key =>
               let* (schema, c) := acc in
               let* branches := composite_branches schema key in
               match branches with
               | None => Ok (schema, c)
               | Some subs =>
                   let* (merged, c) :=
                     foldl (fun acc sub =>
                              let* (merged, c) := acc in
                              let* (sub, c) := deref n' root sub c in
                              let* (sub, c) := flatten_composites n' root sub c in
                              let* items := whitelist_items sub in
                              let* merged := conservative_merge merged items in
                              Ok (merged, c))
                           (Ok (JDict [], c)) subs in
                   let* schema := conservative_merge schema merged in
                   Ok (schema, c)
               end)
            (Ok (schema, c)) ["allOf"; "anyOf"; "oneOf"]
  end.

(** One row of the CSV; the fields are the columns of [CSV_COLUMNS]. *)
Record record := {
  r_leaf_element : string;
  r_path : string;
  r_description : string;
  r_type : string;
  r_format : string;
  r_enum : string;
  r_pattern : string;
  r_min : string;
  r_max : string;
  r_exclusiveMinimum : string;
  r_exclusiveMaximum : string;
  r_multipleOf : string;
  r_minLength : string;
  r_maxLength : string;
  r_minItems : string;
  r_maxItems : string;
  r_required : string;
  r_default : string;
  r_example : string;
  r_x_internal : string
}.

Definition as_csv_value (v : json) : string :=
  match v with
  | JNull => EmptyString
  | JDict _ | JList _ => Json.dumps v
  | JBool true => "True"
  | JBool false => "False"
  | JInt z => str_of_Z z
  | JStr s => s
  end.

(** [s[:-2]] *)
Definition drop_last2 (s : string) : string :=
  String.substring 0 (String.length s - 2) s.

(** [s.split(".")[-1]] *)
Definition last_segment (s : string) : string :=
  List.last (split "." s) EmptyString.

(** [name in (parent_required or [])] *)
Definition in_required (name : string) (parent_required : json) : result bool :=
  match or_empty parent_required with
  | JList l => Ok (existsb (scalar_eq (JStr name)) l)
  | JStr s => Ok (contains name s)
  | JDict d => Ok (has d name)
  | _ => Raise TypeError
  end.

Definition _make_record (path : string) (schema : json) (parent_required : json)
  : result record :=
  match schema with
  | JDict d =>
      let field k := as_csv_value (get_or d k (JStr EmptyString)) in
      let this_name := last_segment path in
      let this_base_name :=
        if endswith this_name "[]" then drop_last2 this_name
        else if endswith this_name ".*" then drop_last2 this_name
        else if contains "[" this_name then EmptyString
        else this_name in
      let* is_required := in_required this_base_name parent_required in
      let leaf := if contains "." path then last_segment path else path in
      let leaf_element :=
        if endswith leaf "[]"
        then (if String.eqb (drop_last2 leaf) EmptyString then "[]"
              else drop_last2 leaf)
        else if endswith leaf ".*"
        then (if String.eqb (drop_last2 leaf) EmptyString then "*"
              else drop_last2 leaf)
        else leaf in
      Ok {| r_leaf_element := leaf_element;
            r_path := path;
            r_description := field "description";
            r_type := field "type";
            r_format := field "format";
            r_enum := field "enum";
            r_pattern := field "pattern";
            r_min := field "minimum";
            r_max := field "maximum";
            r_exclusiveMinimum := field "exclusiveMinimum";
            r_exclusiveMaximum := field "exclusiveMaximum";
            r_multipleOf := field "multipleOf";
            r_minLength := field "minLength";
            r_maxLength := field "maxLength";
            r_minItems := field "minItems";
            r_maxItems := field "maxItems";
            r_required := if is_required then "true" else EmptyString;
            r_default := field "default";
            r_example := field "example";
            r_x_internal := field "x-internal" |}
  | _ => Raise AttributeError
  end.

(** [f"{path}{suffix}" if path else bare] *)
Definition sub_path (path suffix bare : string) : string :=
  if String.eqb path EmptyString then bare else path +:+ suffix.

(** [out] is the list the records are appended to. *)
Fixpoint _walk (n : nat) (root : json) (schema : json) (path : string)
    (parent_required : json) (out : list record) (c : cache)
  : result (list record * cache) :=
  match n with
  | O => Raise RecursionError
  | S n' =>
      let* (schema, c) := flatten_composites n' root schema c in
      let* out :=
        if String.eqb path EmptyString then Ok out
        else let* r := _make_record path schema parent_required in
             Ok (out ++ [r]) in
      match schema with
      | JDict d =>
          let props := get_or d "properties" JNull in
          let addl := get_or d "additionalProperties" JNull in
          let required_here := get_or d "required" (JList []) in
          (* Objects *)
          let* (out, c) :=
            match props with
            | JDict ((_ :: _) as ps) =>
                foldl (fun acc '(name, sub) =>
                         let* (out, c) := acc in
                         let* (sub, c) :=
                           match sub with
                           | JDict _ => deref n' root sub c
                           | _ => Ok (sub, c)
                           end in
                         _walk n' root sub (sub_path path ("." +:+ name) name)
                               required_here out c)
                      (Ok (out, c)) ps
            | _ => Ok (out, c)
            end in
          let* (out, c) :=
            match addl with
            | JDict _ =>
                let* (sub, c) := deref n' root addl c in
                _walk n' root sub (sub_path path ".*" "*") (JList []) out c
            | _ => Ok (out, c)
            end in
          (* Arrays *)
          let t := get_or d "type" JNull in
          if scalar_eq t (JStr "array") || has d "items" then
            match get_or d "items" JNull with
            | JDict _ as items =>
                let* (items, c) := deref n' root items c in
                _walk n' root items (sub_path path "[]" "[]") (JList []) out c
            | JList items =>
                foldl (fun acc '(idx, it) =>
                         let* (out, c) := acc in
                         let* (it, c) := deref n' root it c in
                         let i := "[" +:+ str_of_Z (Z.of_nat idx) +:+ "]" in
                         _walk n' root it (sub_path path i i) (JList []) out c)
                      (Ok (out, c)) (zip (seq 0 (length items)) items)
            | _ => Ok (out, c)
            end
          else Ok (out, c)
      | _ => Raise AttributeError
      end
  end.

Definition iter_elements (n : nat) (root : json) (schema : json)
    (base_path : string) (c : cache) : result (list record * cache) :=
  match n with
  | O => Raise RecursionError
  | S n' =>
      let* (schema, c) := flatten_composites n' root schema c in
      match schema with
      | JDict d =>
          _walk n' root schema base_path (get_or d "required" (JList [])) [] c
      | _ => Raise AttributeError
      end
  end.

End Csv.

(** ** compile_http_errors_from_oas.py: aggregation *)

Module Errors.

(** A row is a [Dict[str, str]]. *)
Abbreviation row := (list (string * string)).

Definition field (r : row) (k : string) : string :=
  match get r k with Some v => v | None => EmptyString end.

Definition make_row (status code desc enums : string) : row :=
  [("Status", status); ("ErrorCode", code); ("Description", desc);
   ("EnumValues", enums)].

Definition row_key (r : row) : string * string * string * string :=
  (field r "Status", field r "ErrorCode", field r "Description",
   field r "EnumValues").

(** [_list_extend_unique(dst, src)]; the list [dst] after the call. *)
Definition _list_extend_unique (dst src : list string) : list string :=
  foldl (fun dst x => if existsb (String.eqb x) dst then dst else dst ++ [x])
        dst src.

(** The loop of [dedupe_rows]; [seen] and [uniq] are its two variables. *)
Fixpoint dedupe_loop (rows : list row)
    (seen : gset (string * string * string * string)) (uniq : list row)
  : list row :=
  match rows with
  | [] => uniq
  | r :: rows' =>
      let key := row_key r in
      if decide (key ∈ seen) then dedupe_loop rows' seen uniq
      else dedupe_loop rows' ({[key]} ∪ seen)
             (uniq ++ [make_row key.1.1.1 key.1.1.2 key.1.2 key.2])
  end.

Definition dedupe_rows (rows : list row) : list row := dedupe_loop rows ∅ [].

(** [sort_key] of [sort_rows]: the status as a number, [10**9] when it is
    not one. *)
Definition sort_key (r : row) : Z * string * string * string :=
  let status := field r "Status" in
  let status_num := match int status with Some n => n | None => 10 ^ 9 end in
  (status_num, status, field r "ErrorCode", field r "Description").











(** [resolve_ref(ref, doc)]: [None] when the reference is not a local one,
    when a key is missing or a node on the way is no dictionary, and when
    the node reached is no dictionary. *)
Fixpoint follow_keys (node : json) (parts : list string) : option json :=
  match parts with
  | [] =>
      match node with
      | JDict _ => Some node
      | _ => None
      end
  | p :: parts' =>
      match node with
      | JDict d =>
          match get d p with
          | Some x => follow_keys x parts'
          | None => None
          end
      | _ => None
      end
  end.

Definition resolve_ref (ref doc : json) : result (option json) :=
  if negb (Py.truthy ref) then Ok None
  else
    match ref with
    | JStr r =>
        if negb (startswith r "#/") then Ok None
        else Ok (follow_keys doc (split "/" (lstrip "#/" r)))
    | _ => Raise AttributeError
    end.

End Errors.

(** ** oas3_data_dictionary_agent.py: merging and expansion

    [merge_schemas] and [expand_combinators] copy dictionaries one level
    deep and then update the nested [properties] dictionary and [required]
    list in place, so the objects are modelled in a store: a value is a
    scalar or the address of a dictionary or list, and the store maps
    addresses to objects.  Allocation appends to the store. *)

Module Agent.

Definition loc := nat.

Inductive val :=
| VNull
| VBool (b : bool)
| VInt (z : Z)
| VStr (s : string)
| VRef (l : loc).

Inductive obj :=
| ODict (d : list (string * val))
| OList (l : list val).

Abbreviation heap := (list obj).

Definition alloc (o : obj) (h : heap) : loc * heap := (length h, h ++ [o]).

(** [isinstance(v, dict)] and [isinstance(v, list)], with the contents. *)
Definition as_dict (h : heap) (v : val) : option (list (string * val)) :=
  match v with
  | VRef l => match h !! l with Some (ODict d) => Some d | _ => None end
  | _ => None
  end.

Definition as_list (h : heap) (v : val) : option (list val) :=
  match v with
  | VRef l => match h !! l with Some (OList xs) => Some xs | _ => None end
  | _ => None
  end.

(** [bool(v)] *)
Definition truthy (h : heap) (v : val) : bool :=
  match v with
  | VNull => false
  | VBool b => b
  | VInt z => negb (z =? 0)
  | VStr s => negb (String.eqb s EmptyString)
  | VRef l =>
      match h !! l with
      | Some (ODict []) | Some (OList []) => false
      | _ => true
      end
  end.

(** [a == b].  Two references to one object are equal at once; otherwise
    lists are compared element by element and dictionaries key by key,
    stopping at the first difference. *)
Fixpoint val_eq (n : nat) (h : heap) (a b : val) : result bool :=
  match a, b with
  | VNull, VNull => Ok true
  | VBool x, VBool y => Ok (Bool.eqb x y)
  | VBool x, VInt y => Ok (Z_of_bool x =? y)
  | VInt x, VBool y => Ok (x =? Z_of_bool y)
  | VInt x, VInt y => Ok (x =? y)
  | VStr x, VStr y => Ok (String.eqb x y)
  | VRef l1, VRef l2 =>
      if (l1 =? l2)%nat then Ok true
      else
        match n with
        | O => Raise RecursionError
        | S n' =>
            match h !! l1, h !! l2 with
            | Some (OList xs), Some (OList ys) =>
                if (length xs =? length ys)%nat then
                  foldl (fun (acc : result bool) '(x, y) =>
                           let* ok := acc in
                           if ok then val_eq n' h x y else Ok false)
                        (Ok true) (zip xs ys)
                else Ok false
            | Some (ODict xs), Some (ODict ys) =>
                if (length xs =? length ys)%nat then
                  foldl (fun (acc : result bool) '(k, x) =>
                           let* ok := acc in
                           if ok then
                             match get ys k with
                             | Some y => val_eq n' h x y
                             | None => Ok false
                             end
                           else Ok false)
                        (Ok true) xs
                else Ok false
            | _, _ => Ok false
            end
        end
  | _, _ => Ok false
  end.

(** [k in v] for a string [k]. *)
Definition contains_key (h : heap) (v : val) (k : string) : result bool :=
  match v with
  | VStr s => Ok (contains k s)
  | VRef l =>
      match h !! l with
      | Some (ODict d) => Ok (has d k)
      | Some (OList xs) =>
          Ok (existsb (fun x => match x with
                                | VStr s => String.eqb s k
                                | _ => false
                                end) xs)
      | None => Raise TypeError
      end
  | _ => Raise TypeError
  end.

(** [v[k]] for a string [k], after [k in v] has held. *)
Definition item (h : heap) (v : val) (k : string) : result val :=
  match as_dict h v with
  | Some d => match get d k with Some x => Ok x | None => Raise (KeyError NotFound) end
  | None => Raise TypeError
  end.

(** [k in other and isinstance(other[k], dict)], with the contents. *)
Definition dict_at (h : heap) (other : val) (k : string)
  : result (option (list (string * val))) :=
  let* present := contains_key h other k in
  if present then let* x := item h other k in Ok (as_dict h x) else Ok None.

Definition list_at (h : heap) (other : val) (k : string)
  : result (option (list val)) :=
  let* present := contains_key h other k in
  if present then let* x := item h other k in Ok (as_list h x) else Ok None.

(** [d.update(src)] *)
Definition update (d src : list (string * val)) : list (string * val) :=
  foldl (fun d (kv : string * val) => set d kv.1 kv.2) d src.

(** [merged.setdefault(k, fresh)] where [fresh] is a new empty object. *)
Definition setdefault (m : loc) (k : string) (fresh : obj) (h : heap)
  : val * heap :=
  match h !! m with
  | Some (ODict d) =>
      match get d k with
      | Some v => (v, h)
      | None =>
          let '(l, h) := alloc fresh h in
          (VRef l, <[m := ODict (set d k (VRef l))]> h)
      end
  | _ => (VNull, h)
  end.

(** [r not in target], negated. *)
Definition member (n : nat) (h : heap) (r target : val) : result bool :=
  match target with
  | VStr s =>
      match r with
      | VStr x => Ok (contains x s)
      | _ => Raise TypeError
      end
  | VRef l =>
      match h !! l with
      | Some (OList xs) =>
          foldl (fun (acc : result bool) x =>
                   let* found := acc in
                   if found then Ok true else val_eq n h x r)
                (Ok false) xs
      | Some (ODict d) =>
          match r with
          | VStr x => Ok (has d x)
          | VRef _ => Raise TypeError
          | _ => Ok false
          end
      | None => Raise TypeError
      end
  | _ => Raise TypeError
  end.

(** [target.append(r)] *)
Definition append (h : heap) (target r : val) : result heap :=
  match target with
  | VRef l =>
      match h !! l with
      | Some (OList xs) => Ok (<[l := OList (xs ++ [r])]> h)
      | _ => Raise AttributeError
      end
  | _ => Raise AttributeError
  end.

(** [base] is a dictionary at every call site. *)
Definition merge_schemas (n : nat) (base other : val) (h : heap)
  : result (val * heap) :=
  match as_dict h base with
  | None => Raise TypeError
  | Some d =>
      (* merged = dict(base) *)
      let '(m, h) := alloc (ODict d) h in
      (* Merge properties *)
      let* props := dict_at h other "properties" in
      let* h :=
        match props with
        | None => Ok h
        | Some _ =>
            let '(target, h) := setdefault m "properties" (ODict []) h in
            let* src := item h other "properties" in
            match target, as_dict h target, as_dict h src with
            | VRef t, Some dt, Some ds => Ok (<[t := ODict (update dt ds)]> h)
            | _, _, _ => Raise AttributeError
            end
        end in
      (* Merge required list *)
      let* req := list_at h other "required" in
      let* h :=
        match req with
        | None => Ok h
        | Some rs =>
            let '(target, h) := setdefault m "required" (OList []) h in
            foldl (fun (acc : result heap) r =>
                     let* h := acc in
                     let* found := member n h r target in
                     if found then Ok h else append h target r)
                  (Ok h) rs
        end in
      (* Type override only if missing *)
      let* h :=
        match h !! m with
        | Some (ODict dm) =>
            if has dm "type" then Ok h
            else
              let* present := contains_key h other "type" in
              if present then
                let* t := item h other "type" in
                Ok (<[m := ODict (set dm "type" t)]> h)
              else Ok h
        | _ => Ok h
        end in
      Ok (VRef m, h)
  end.

(** [resolve_ref]: every failure yields a new empty dictionary. *)
Fixpoint follow (h : heap) (node : val) (parts : list string) : option val :=
  match parts with
  | [] => Some node
  | part :: parts' =>
      match as_dict h node with
      | Some d =>
          match get d part with
          | Some x => follow h x parts'
          | None => None
          end
      | None => None
      end
  end.

Definition resolve_ref (doc ref : val) (h : heap) : result (val * heap) :=
  let empty := let '(l, h) := alloc (ODict []) h in Ok (VRef l, h) in
  if negb (truthy h ref) then empty
  else
    match ref with
    | VStr r =>
        if negb (startswith r "#/") then empty
        else
          match follow h doc (split "/" (lstrip "#/" r)) with
          | Some node =>
              match as_dict h node with
              | Some _ => Ok (node, h)
              | None => empty
              end
          | None => empty
          end
    | _ => Raise AttributeError
    end.

(** The list of branches is the one read when the loop starts: only lists
    stored under [required] are ever appended to. *)
Fixpoint expand_combinators (n : nat) (doc schema : val) (h : heap)
  : result (val * heap) :=
  match n with
  | O => Raise RecursionError
  | S n' =>
      match as_dict h schema with
      | None => Ok (schema, h)
      | Some d =>
          let '(o, h) := alloc (ODict d) h in
          foldl (fun acc comb =>
                   let* (out, h) := acc in
                   let branches :=
                     match as_dict h schema with
                     | Some d => match get d comb with Some b => b | None => VNull end
                     | None => VNull
                     end in
                   match as_list h branches with
                   | None => Ok (out, h)
                   | Some bs =>
                       let '(m, h) := alloc (ODict []) h in
                       let* (merged, h) :=
                         foldl (fun acc branch =>
                                  let* (merged, h) := acc in
                                  let* (branch, h) :=
                                    match as_dict h branch with
                                    | Some bd =>
                                        match get bd "$ref" with
                                        | Some ref => resolve_ref doc ref h
                                        | None => Ok (branch, h)
                                        end
                                    | None => Ok (branch, h)
                                    end in
                                  let* (branch, h) :=
                                    expand_combinators n' doc branch h in
                                  merge_schemas n' merged branch h)
                               (Ok (VRef m, h)) bs in
                       let* (out, h) := merge_schemas n' out merged h in
                       match out, as_dict h out with
                       | VRef o, Some od => Ok (out, <[o := ODict (pop od comb)]> h)
                       | _, _ => Ok (out, h)
                       end
                   end)
                (Ok (VRef o, h)) ["oneOf"; "anyOf"; "allOf"]
      end
  end.

(** The value held at [v], read back as a tree; [n] bounds the depth. *)
Fixpoint read_back (n : nat) (h : heap) (v : val) : option json :=
  match v with
  | VNull => Some JNull
  | VBool b => Some (JBool b)
  | VInt z => Some (JInt z)
  | VStr s => Some (JStr s)
  | VRef l =>
      match n with
      | O => None
      | S n' =>
          match h !! l with
          | Some (OList xs) => JList <$> mapM (read_back n' h) xs
          | Some (ODict d) =>
              JDict <$> mapM (fun '(k, x) => pair k <$> read_back n' h x) d
          | None => None
          end
      end
  end.

(** [json.loads]: every dictionary and list becomes a new object. *)
Fixpoint load (j : json) (h : heap) : val * heap :=
  match j with
  | JNull => (VNull, h)
  | JBool b => (VBool b, h)
  | JInt z => (VInt z, h)
  | JStr s => (VStr s, h)
  | JList xs =>
      let '(vs, h) :=
        foldl (fun (acc : list val * heap) x =>
                 let '(v, h) := load x acc.2 in (acc.1 ++ [v], h))
              ([], h) xs in
      let '(l, h) := alloc (OList vs) h in (VRef l, h)
  | JDict d =>
      let '(kvs, h) :=
        foldl (fun (acc : list (string * val) * heap) '(k, x) =>
                 let '(v, h) := load x acc.2 in (acc.1 ++ [(k, v)], h))
              ([], h) d in
      let '(l, h) := alloc (ODict kvs) h in (VRef l, h)
  end.





End Agent.

(** * Vocabulary of the statements *)

Import Csv.

(** [j.get(k)] when [j] is a dictionary. *)
Definition jget (j : json) (k : string) : option json :=
  match j with
  | JDict d => get d k
  | _ => None
  end.

(** The keys that [flatten_composites] takes from a branch. *)
Definition whitelist : list string :=
  ["pattern"; "minLength"; "maxLength"; "minimum"; "maximum";
   "exclusiveMinimum"; "exclusiveMaximum"; "multipleOf"; "minItems";
   "maxItems"; "uniqueItems"; "format"; "enum"; "default"; "example";
   "const"; "required"; "type"; "description"; "x-internal";
   "properties"; "items"; "additionalProperties"].

(** No key outside the whitelist. *)
Definition only_whitelisted (j : json) : Prop :=
  forall k, whitelisted k = false -> jget j k = None.

(** One turn of the loop over the branches of a composite key, and one turn
    of the loop over the three composite keys, as they stand in
    [flatten_composites]. *)
Definition branch_step (n : nat) (root : json) (acc : result (json * cache))
    (sub : json) : result (json * cache) :=
  let* (merged, c) := acc in
  let* (sub, c) := deref n root sub c in
  let* (sub, c) := flatten_composites n root sub c in
  let* items := whitelist_items sub in
  let* merged := conservative_merge merged items in
  Ok (merged, c).

Definition composite_step (n : nat) (root : json) (acc : result (json * cache))
    (key : string) : result (json * cache) :=
  let* (schema, c) := acc in
  let* branches := composite_branches schema key in
  match branches with
  | None => Ok (schema, c)
  | Some subs =>
      let* (merged, c) := foldl (branch_step n root) (Ok (JDict [], c)) subs in
      let* schema := conservative_merge schema merged in
      Ok (schema, c)
  end.

(** The pointer as the RFC reads it: after the leading [#] and one [/], the
    segments are the pieces between slashes; [#] alone has no segment. *)
Definition pointer_segments (pointer : string) : list string :=
  match pointer with
  | String _ EmptyString => []
  | String _ (String "/" rest) => split "/" rest
  | String _ rest => split "/" rest
  | EmptyString => []
  end.

(** Indexing by hand through the segments of a local pointer. *)
Definition index_by_segments (doc : json) (pointer : string) : result json :=
  if negb (startswith pointer "#") then Raise ValueError
  else descend doc (pointer_segments pointer).

Definition pointer_doc : json :=
  JDict [("", JDict [("a", JInt 1)]); ("a", JInt 2)].

Definition whitelist_example : json :=
  JDict [("title", JStr "node");
         ("allOf", JList [JDict [("title", JStr "branch");
                                 ("type", JStr "string");
                                 ("x-other", JInt 1);
                                 ("x-internal", JBool true)]])].

(** [set.update] on strings: the names of [l] not yet in [s], in order. *)
Definition add_all (s l : list string) : list string :=
  foldl (fun s x => if existsb (String.eqb x) s then s else s ++ [x]) s l.

(** The text of [s1 <= s2] on strings, as a relation. *)
Definition str_order (a b : string) : Prop := str_le a b = true.


(** Duplicates removed, the first occurrence of each element kept. *)
Fixpoint first_seen {A} `{EqDecision A} (l : list A) : list A :=
  match l with
  | [] => []
  | x :: l' => x :: filter (fun y => y <> x) (first_seen l')
  end.

(** The row that [dedupe_rows] builds from a key. *)
Definition row_of_key (k : string * string * string * string) : Errors.row :=
  Errors.make_row k.1.1.1 k.1.1.2 k.1.2 k.2.


(** The number that [sort_rows] puts first in its key. *)
Definition status_num (r : Errors.row) : Z := (Errors.sort_key r).1.1.1.







Definition is_dict (j : json) : Prop :=
  match j with JDict _ => True | _ => False end.

(** A document with one schema [T] whose [type] comes from a composite, and
    a node that refers to it with a sibling [type]. *)
Definition ref_root : json :=
  JDict [("T", JDict [("allOf", JList [JDict [("type", JStr "string")]])])].
Definition ref_node : json :=
  JDict [("$ref", JStr "#/T"); ("type", JStr "integer")].



(** [merge_schemas(base, other)] on freshly loaded values, and what the
    result, [base] and [other] read back as afterwards. *)
Definition agent_merge (n : nat) (base other : json)
  : result (option json * option json * option json) :=
  let '(a, h) := Agent.load base [] in
  let '(b, h) := Agent.load other h in
  let* (m, h') := Agent.merge_schemas n a b h in
  Ok (Agent.read_back 16 h' m, Agent.read_back 16 h' a, Agent.read_back 16 h' b).

Definition mutation_doc : json :=
  JDict [("S", JDict [("required", JList [JStr "x"]);
                      ("properties", JDict [("a", JDict [])]);
                      ("allOf", JList [JDict [("required", JList [JStr "y"]);
                                              ("properties", JDict [("b", JDict [])])]])])].

(** [expand_combinators(doc, doc["S"])], and what the result and the
    document read back as afterwards. *)
Definition agent_expand_in_doc (n : nat) (doc : json) (key : string)
  : result (option json * option json) :=
  let '(d, h) := Agent.load doc [] in
  match Agent.follow h d [key] with
  | Some s =>
      let* (out, h') := Agent.expand_combinators n d s h in
      Ok (Agent.read_back 16 h' out, Agent.read_back 16 h' d)
  | None => Raise (KeyError NotFound)
  end.

(** Every entry of the cache is free of [$ref]. *)
Definition cache_dereferenced (c : cache) : Prop :=
  forall r b, c !! r = Some b -> jget b "$ref" = None.

(** A segment as RFC 6901 writes it: [~] becomes [~0] and [/] becomes
    [~1]. *)
Fixpoint escape_segment (k : string) : string :=
  match k with
  | EmptyString => EmptyString
  | String c k' =>
      if Ascii.eqb c "~" then String "~" (String "0" (escape_segment k'))
      else if Ascii.eqb c "/" then String "~" (String "1" (escape_segment k'))
      else String c (escape_segment k')
  end.

(** The first character, if any, is none of [chars]. *)
Definition starts_clear (chars s : string) : Prop :=
  match s with
  | EmptyString => True
  | String c _ => char_in c chars = false
  end.

(** * Properties *)

(** ** Results and folds *)

Lemma bind_Ok {A B} (m : result A) (k : A -> result B) (b : B) :
  bind m k = Ok b -> exists a, m = Ok a /\ k a = Ok b.
Proof. destruct m as [a|e]; simpl; [eauto | discriminate]. Qed.

Lemma foldl_Raise {A B} (f : result A -> B -> result A) (l : list B) (e : exn) :
  (forall e' b, f (Raise e') b = Raise e') ->
  foldl f (Raise e) l = Raise e.
Proof.
  intros Hf. induction l as [|b l IH]; simpl; [done|]. by rewrite Hf.
Qed.

(** An invariant of the loop variable holds after the loop when every turn
    keeps it. *)
Lemma foldl_Ok_inv {A B} (f : result A -> B -> result A) (P : A -> Prop)
    (l : list B) (a0 r : A) :
  (forall e b, f (Raise e) b = Raise e) ->
  (forall a b a', P a -> b ∈ l -> f (Ok a) b = Ok a' -> P a') ->
  P a0 -> foldl f (Ok a0) l = Ok r -> P r.
Proof.
  intros HR. revert a0. induction l as [|b l IH]; simpl; intros a0 Hstep H0 Hr.
  - inversion Hr; by subst.
  - destruct (f (Ok a0) b) as [a1|e] eqn:E.
    + apply (IH a1); [|by eapply Hstep; [exact H0|left|]|done].
      intros a b' a' Ha Hin. apply Hstep; [done|by right].
    + rewrite foldl_Raise in Hr; [discriminate|done].
Qed.

(** ** Dictionaries *)

Section dict_facts.
Context {V : Type}.
Implicit Types (d : list (string * V)) (k : string) (v : V).

Lemma get_set_eq d k v : get (set d k v) k = Some v.
Proof.
  induction d as [|[k' v'] d IH]; simpl.
  - by rewrite String.eqb_refl.
  - destruct (String.eqb_spec k' k) as [->|Hne]; simpl.
    + by rewrite String.eqb_refl.
    + by destruct (String.eqb_spec k' k).
Qed.

Lemma get_set_ne d k k' v : k <> k' -> get (set d k v) k' = get d k'.
Proof.
  intros Hne. induction d as [|[k1 v1] d IH]; simpl.
  - by destruct (String.eqb_spec k k').
  - destruct (String.eqb_spec k1 k) as [->|Hne1]; simpl.
    + by destruct (String.eqb_spec k k').
    + by rewrite IH.
Qed.

Lemma get_pop_eq d k : NoDup (keys d) -> get (pop d k) k = None.
Proof.
  induction d as [|[k1 v1] d IH]; simpl; [done|].
  intros Hnd. apply NoDup_cons in Hnd as [Hnot Hnd].
  destruct (String.eqb_spec k1 k) as [->|Hne]; simpl.
  - clear IH Hnd. induction d as [|[k2 v2] d IH]; simpl; [done|].
    simpl in Hnot. apply not_elem_of_cons in Hnot as [Hne Hnot].
    destruct (String.eqb_spec k2 k); [congruence|by apply IH].
  - destruct (String.eqb_spec k1 k); [done|by apply IH].
Qed.

Lemma get_pop_ne d k k' : k <> k' -> get (pop d k) k' = get d k'.
Proof.
  intros Hne. induction d as [|[k1 v1] d IH]; simpl; [done|].
  destruct (String.eqb_spec k1 k) as [->|Hne1]; simpl.
  - by destruct (String.eqb_spec k k').
  - by rewrite IH.
Qed.





Lemma get_filter d (p : string -> bool) k :
  get (List.filter (fun kv => p kv.1) d) k = if p k then get d k else None.
Proof.
  induction d as [|[k1 v1] d IH]; simpl; [by destruct (p k)|].
  destruct (p k1) eqn:Ep; simpl.
  - destruct (String.eqb_spec k1 k) as [->|Hne]; [by rewrite Ep|done].
  - destruct (String.eqb_spec k1 k) as [->|Hne]; [by rewrite IH, Ep|done].
Qed.
End dict_facts.

(** ** The conservative merge, key by key *)

Lemma merge_item_other out k v out' k' :
  merge_item out k v = Ok out' -> k' <> k -> get out' k' = get out k'.
Proof.
  unfold merge_item. intros H Hne.
  destruct (String.eqb_spec k "enum") as [->|Hk1].
  { apply bind_Ok in H as (m & _ & H). destruct m; inversion H; subst; [|done].
    by rewrite get_set_ne. }
  destruct (String.eqb_spec k "required") as [->|Hk2].
  { apply bind_Ok in H as (ra & _ & H). apply bind_Ok in H as (rb & _ & H).
    destruct ra, rb; try (by inversion H);
      apply bind_Ok in H as (u & _ & H); apply bind_Ok in H as (l & _ & H);
      inversion H; subst; by rewrite get_set_ne. }
  destruct (has out k); simpl in H; inversion H; subst; [done|].
  by rewrite get_set_ne.
Qed.

Lemma merge_item_plain out k v out' :
  merge_item out k v = Ok out' -> k <> "enum" -> k <> "required" ->
  get out' k = Some (default v (get out k)).
Proof.
  unfold merge_item, has. intros H Hk1 Hk2.
  destruct (String.eqb_spec k "enum"); [done|].
  destruct (String.eqb_spec k "required"); [done|].
  destruct (get out k) eqn:E; simpl in H; inversion H; subst; [done|].
  by rewrite get_set_eq.
Qed.

Lemma merge_item_keeps out k v out' k' :
  merge_item out k v = Ok out' -> has out k' = true -> has out' k' = true.
Proof.
  intros H. destruct (decide (k' = k)) as [->|Hne].
  - unfold has. unfold merge_item in H.
    destruct (String.eqb_spec k "enum") as [->|Hk1].
    { apply bind_Ok in H as (m & _ & H). destruct m; inversion H; subst; [|done].
      by rewrite get_set_eq. }
    destruct (String.eqb_spec k "required") as [->|Hk2].
    { apply bind_Ok in H as (ra & _ & H). apply bind_Ok in H as (rb & _ & H).
      destruct ra, rb; try (by inversion H);
        apply bind_Ok in H as (u & _ & H); apply bind_Ok in H as (l & _ & H);
        inversion H; subst; by rewrite get_set_eq. }
    unfold has in H. destruct (get out k) eqn:E; simpl in H; inversion H; subst.
    + by rewrite E.
    + by rewrite get_set_eq.
  - unfold has. by rewrite (merge_item_other _ _ _ _ _ H Hne).
Qed.

Lemma merge_items_absent b : forall out out' k,
  merge_items out b = Ok out' -> get b k = None -> get out' k = get out k.
Proof.
  induction b as [|[k1 v1] b IH]; simpl; intros out out' k H Hk.
  - by inversion H.
  - apply bind_Ok in H as (out1 & H1 & H).
    destruct (String.eqb_spec k1 k) as [->|Hne]; [done|].
    rewrite (IH _ _ _ H Hk). by eapply merge_item_other.
Qed.

Lemma merge_items_plain b : forall out out' k,
  merge_items out b = Ok out' -> k <> "enum" -> k <> "required" ->
  get out' k = match get out k with Some x => Some x | None => get b k end.
Proof.
  induction b as [|[k1 v1] b IH]; simpl; intros out out' k H Hk1 Hk2.
  - inversion H. by destruct (get out' k).
  - apply bind_Ok in H as (out1 & H1 & H).
    rewrite (IH _ _ _ H Hk1 Hk2).
    destruct (String.eqb_spec k1 k) as [->|Hne].
    + rewrite (merge_item_plain _ _ _ _ H1 Hk1 Hk2). by destruct (get out k).
    + by rewrite (merge_item_other _ _ _ _ _ H1).
Qed.

Lemma merge_items_keeps b : forall out out' k,
  merge_items out b = Ok out' -> has out k = true -> has out' k = true.
Proof.
  induction b as [|[k1 v1] b IH]; simpl; intros out out' k H Hk.
  - by inversion H; subst.
  - apply bind_Ok in H as (out1 & H1 & H).
    eapply IH; [done|]. by eapply merge_item_keeps.
Qed.

Lemma conservative_merge_dict d b r :
  conservative_merge (JDict d) b = Ok r ->
  exists items out, b = JDict items /\ r = JDict out /\ merge_items d items = Ok out.
Proof.
  unfold conservative_merge. destruct b; try discriminate.
  intros H. apply bind_Ok in H as (out & H1 & H). inversion H. eauto.
Qed.

(** ** Composite flattening takes only whitelisted keys from a branch *)

Lemma whitelisted_spec k : whitelisted k = true <-> k ∈ whitelist.
Proof.
  unfold whitelisted, in_keys. rewrite existsb_exists. split.
  - intros (x & Hx & Heq). apply String.eqb_eq in Heq as ->.
    by apply list_elem_of_In.
  - intros H. exists k. split; [by apply list_elem_of_In|apply String.eqb_refl].
Qed.

Lemma whitelist_items_only sub items :
  whitelist_items sub = Ok items -> only_whitelisted items.
Proof.
  destruct sub; try discriminate. intros H; inversion H. intros k Hk. simpl.
  by rewrite get_filter, Hk.
Qed.

Lemma conservative_merge_only a b r :
  conservative_merge a b = Ok r ->
  (exists d, a = JDict d) -> only_whitelisted a -> only_whitelisted b ->
  only_whitelisted r.
Proof.
  intros H [d ->] Ha Hb k Hk.
  apply conservative_merge_dict in H as (items & out & -> & -> & H). simpl.
  rewrite (merge_items_absent _ _ _ _ H); [by apply Ha|by apply Hb].
Qed.

Lemma composite_branches_Some schema key subs :
  composite_branches schema key = Ok (Some subs) ->
  exists d, schema = JDict d /\ get d key = Some (JList subs).
Proof.
  destruct schema as [| | |s|l|d]; simpl; try discriminate.
  - by destruct (contains key s).
  - by destruct (existsb _ l).
  - destruct (get d key) as [[]|] eqn:E; try discriminate.
    intros H; inversion H; subst. eauto.
Qed.

Lemma flatten_composites_unfold n root schema c :
  flatten_composites (S n) root schema c =
  let* (schema, c) := deref n root schema c in
  foldl (composite_step n root) (Ok (schema, c)) ["allOf"; "anyOf"; "oneOf"].
Proof. reflexivity. Qed.

(** The accumulator [merged] of one composite key. *)
Lemma branches_only n root subs c merged c' :
  foldl (branch_step n root) (Ok (JDict [], c)) subs = Ok (merged, c') ->
  (exists d, merged = JDict d) /\ only_whitelisted merged.
Proof.
  intros H.
  refine (foldl_Ok_inv _
            (fun mc => (exists d, mc.1 = JDict d) /\ only_whitelisted mc.1)
            subs (JDict [], c) (merged, c') _ _ _ H).
  - done.
  - intros [m c0] sub [m' c1] Hinv _ Hstep. unfold branch_step in Hstep.
    simpl in *. destruct Hinv as [[d ->] Hm].
    apply bind_Ok in Hstep as ([s1 c2] & _ & Hstep).
    apply bind_Ok in Hstep as ([s2 c3] & _ & Hstep).
    apply bind_Ok in Hstep as (items & Hitems & Hstep).
    apply bind_Ok in Hstep as (m1 & Hm1 & Hstep). inversion Hstep; subst.
    split.
    + apply conservative_merge_dict in Hm1 as (? & out & _ & -> & _). eauto.
    + eapply conservative_merge_only; eauto using whitelist_items_only.
  - split; [by eexists|]. by intros k _.
Qed.

(** C10. When [flatten_composites] folds the branches of [allOf], [anyOf]
    and [oneOf] into a node, a key outside the whitelist (the constraint
    keys, [type], [description], [x-internal], [properties], [items],
    [additionalProperties]) has in the result exactly the entry it has in
    the dereferenced node itself: nothing under such a key comes from a
    branch.  [title] is outside the whitelist and [x-internal] is the only
    vendor extension inside. *)
Theorem flatten_composites_whitelist n root schema c res c' :
  flatten_composites (S n) root schema c = Ok (res, c') ->
  exists node c0,
    deref n root schema c = Ok (node, c0) /\
    (forall k, k ∉ whitelist -> jget res k = jget node k) /\
    ("title" ∉ whitelist) /\ ("x-internal" ∈ whitelist) /\
    ("x-other" ∉ whitelist).
Proof.
  rewrite flatten_composites_unfold. intros H.
  apply bind_Ok in H as ([node c0] & Hd & H).
  exists node, c0. split; [done|]. split.
  2:{ split_and!; [|set_solver|]; intros Hin;
        repeat (apply elem_of_cons in Hin as [Hin|Hin]; [discriminate|]);
        inversion Hin. }
  intros k Hk.
  assert (Hwl : whitelisted k = false).
  { destruct (whitelisted k) eqn:E; [|done]. by apply whitelisted_spec in E. }
  clear Hk.
  refine (foldl_Ok_inv _ (fun sc => jget sc.1 k = jget node k)
            ["allOf"; "anyOf"; "oneOf"] (node, c0) (res, c') _ _ _ H);
    [done| |done].
  intros [s c1] key [s' c2] Hs _ Hstep. unfold composite_step in Hstep.
  simpl in *.
  apply bind_Ok in Hstep as (br & Hbr & Hstep).
  destruct br as [subs|]; [|by inversion Hstep; subst].
  apply bind_Ok in Hstep as ([merged c3] & Hfold & Hstep).
  apply bind_Ok in Hstep as (s1 & Hs1 & Hstep). inversion Hstep; subst.
  apply branches_only in Hfold as [[m ->] Hm].
  apply composite_branches_Some in Hbr as (d & -> & _).
  apply conservative_merge_dict in Hs1 as (items & out & Heq & -> & Hs1).
  inversion Heq; subst. simpl in *.
  rewrite (merge_items_absent _ _ _ _ Hs1); [done|by apply (Hm k)].
Qed.

Lemma flatten_composites_whitelist_witness :
  flatten_composites 3 JNull whitelist_example ∅ =
    Ok (JDict [("title", JStr "node");
               ("allOf", JList [JDict [("title", JStr "branch");
                                       ("type", JStr "string");
                                       ("x-other", JInt 1);
                                       ("x-internal", JBool true)]]);
               ("type", JStr "string"); ("x-internal", JBool true)], ∅) /\
  exists node c0,
    deref 2 JNull whitelist_example ∅ = Ok (node, c0) /\
    (forall k, k ∉ whitelist ->
       jget (JDict [("title", JStr "node");
                    ("allOf", JList [JDict [("title", JStr "branch");
                                            ("type", JStr "string");
                                            ("x-other", JInt 1);
                                            ("x-internal", JBool true)]]);
                    ("type", JStr "string"); ("x-internal", JBool true)]) k
       = jget node k) /\
    ("title" ∉ whitelist) /\ ("x-internal" ∈ whitelist) /\
    ("x-other" ∉ whitelist).
Proof.
  split; [vm_compute; reflexivity|].
  apply (flatten_composites_whitelist 2 JNull whitelist_example ∅ _ ∅).
  vm_compute; reflexivity.
Defined.

(** ** JSON pointers *)

Lemma lstrip_stop chars s :
  match s with
  | EmptyString => True
  | String c _ => char_in c chars = false
  end -> lstrip chars s = s.
Proof. destruct s as [|c s]; simpl; [done|]. by intros ->. Qed.

(** Where the code agrees with indexing by hand: [#] alone, and [#/...]
    when the first segment does not begin with [#] or [/]. *)
Lemma resolve_json_pointer_agrees doc rest :
  match rest with
  | EmptyString => True
  | String c _ => char_in c "#/" = false
  end ->
  resolve_json_pointer doc "#" = Ok doc /\
  resolve_json_pointer doc ("#/" +:+ rest) = index_by_segments doc ("#/" +:+ rest).
Proof.
  intros H. split; [done|].
  unfold resolve_json_pointer, index_by_segments. simpl.
  destruct rest as [|c rest]; [done|]. simpl. by rewrite H.
Qed.

(** C4. The resolver removes every leading [#] and [/] of the pointer
    before it splits it, so a pointer whose first segment is empty, or
    begins with one of these characters, is resolved along other segments
    than its own: in [{"": {"a": 1}, "a": 2}] the pointer [#//a] names the
    [1] and the code returns the [2]; in the same way [#/] succeeds on
    a document without an empty key only by hand, and [##] resolves
    like [#]. *)
Theorem resolve_json_pointer_strips_too_much :
  resolve_json_pointer pointer_doc "#//a" = Ok (JInt 2) /\
  index_by_segments pointer_doc "#//a" = Ok (JInt 1) /\
  resolve_json_pointer (JDict [("a", JInt 2)]) "#//a" = Ok (JInt 2) /\
  index_by_segments (JDict [("a", JInt 2)]) "#//a" = Raise (KeyError NotFound) /\
  resolve_json_pointer (JDict [("#a", JInt 1); ("a", JInt 2)]) "#/#a" = Ok (JInt 2) /\
  index_by_segments (JDict [("#a", JInt 1); ("a", JInt 2)]) "#/#a" = Ok (JInt 1).
Proof. by vm_compute. Qed.

(** The error of each failing case, on the pointers the resolver splits
    as the RFC does. *)
Lemma resolve_json_pointer_errors :
  resolve_json_pointer pointer_doc "/a" = Raise ValueError /\
  resolve_json_pointer pointer_doc "#/b" = Raise (KeyError NotFound) /\
  resolve_json_pointer (JList [JNull]) "#/1" = Raise (KeyError IndexOutOfRange) /\
  resolve_json_pointer (JList [JNull]) "#/-1" = Raise (KeyError IndexOutOfRange) /\
  resolve_json_pointer (JList [JNull]) "#/x" = Raise (KeyError ExpectedIntegerIndex) /\
  resolve_json_pointer pointer_doc "#/a/b" = Raise (KeyError NonContainer) /\
  resolve_json_pointer (JDict [("a/b", JDict [("~", JInt 7)])]) "#/a~1b/~0" = Ok (JInt 7).
Proof. by vm_compute. Qed.

(** ** Sorting *)

Section sorted_facts.
Context {A : Type} (le : A -> A -> bool).
Hypothesis le_total : forall x y, le x y = true \/ le y x = true.
Hypothesis le_trans : forall x y z, le x y = true -> le y z = true -> le x z = true.




End sorted_facts.


Lemma str_le_iff a b :
  str_le a b = true <-> a = b \/ OrderedTypeEx.String_as_OT.lt a b.
Proof.
  unfold str_le, String.leb.
  destruct (String.compare a b) eqn:E.
  - apply OrderedTypeEx.String_as_OT.cmp_eq in E. naive_solver.
  - apply OrderedTypeEx.String_as_OT.cmp_lt in E. naive_solver.
  - split; [done|]. intros [->|H].
    + assert (String.compare b b = Eq) as Hb
        by by apply OrderedTypeEx.String_as_OT.cmp_eq.
      congruence.
    + apply OrderedTypeEx.String_as_OT.cmp_lt in H.
      unfold OrderedTypeEx.String_as_OT.cmp in H. congruence.
Qed.

Lemma str_le_refl a : str_le a a = true.
Proof. apply str_le_iff. by left. Qed.



Lemma str_le_antisym a b : str_le a b = true -> str_le b a = true -> a = b.
Proof. apply String.leb_antisym. Qed.

#[local] Instance str_order_antisym : AntiSymm eq str_order.
Proof. intros a b. apply str_le_antisym. Qed.

(** ** The [required] lists of a conservative merge *)



Lemma elem_of_add_all l : forall s x, x ∈ add_all s l <-> x ∈ s \/ x ∈ l.
Proof.
  induction l as [|y l IH]; intros s x; simpl.
  - rewrite elem_of_nil. naive_solver.
  - unfold add_all in *. simpl. rewrite IH, elem_of_cons.
    destruct (existsb (String.eqb y) s) eqn:E.
    + apply existsb_exists in E as (z & Hz & Heq).
      apply String.eqb_eq in Heq as <-. apply list_elem_of_In in Hz.
      naive_solver.
    + rewrite elem_of_app, list_elem_of_singleton. naive_solver.
Qed.

Lemma add_all_prefix src : forall dst, dst `prefix_of` add_all dst src.
Proof.
  induction src as [|x src IH]; intros dst; [done|].
  unfold add_all in *. simpl.
  destruct (existsb (String.eqb x) dst); [apply IH|].
  etrans; [|apply IH]. by apply prefix_app_r.
Qed.

Lemma NoDup_add_all l : forall s, NoDup s -> NoDup (add_all s l).
Proof.
  induction l as [|y l IH]; intros s Hs; simpl; [done|].
  unfold add_all in *. simpl. apply IH.
  destruct (existsb (String.eqb y) s) eqn:E; [done|].
  apply NoDup_app. split_and!; [done| |apply NoDup_singleton].
  intros x Hx Hy. apply list_elem_of_singleton in Hy as ->.
  assert (existsb (String.eqb y) s = true); [|congruence].
  apply existsb_exists. exists y. split; [by apply list_elem_of_In|].
  apply String.eqb_refl.
Qed.















(** ** De-duplication *)


Lemma first_seen_NoDup {A} `{EqDecision A} (l : list A) : NoDup (first_seen l).
Proof.
  induction l as [|y l IH]; simpl; [constructor|].
  constructor; [|by apply NoDup_filter].
  rewrite list_elem_of_filter. naive_solver.
Qed.


Lemma filter_all {A} (P : A -> Prop) `{!forall x, Decision (P x)} (l : list A) :
  (forall x, x ∈ l -> P x) -> filter P l = l.
Proof.
  induction l as [|x l IH]; intros Hall; [done|].
  rewrite filter_cons_True by (apply Hall; left). f_equal. apply IH.
  intros y Hy. apply Hall. by right.
Qed.

Lemma dedupe_loop_spec rows : forall seen uniq,
  Errors.dedupe_loop rows seen uniq =
  uniq ++ map row_of_key
            (filter (fun k => k ∉ seen) (first_seen (map Errors.row_key rows))).
Proof.
  induction rows as [|r rows IH]; intros seen uniq; simpl.
  - by rewrite app_nil_r.
  - destruct (decide (Errors.row_key r ∈ seen)) as [Hin|Hnot].
    + rewrite IH, filter_cons_False by naive_solver.
      rewrite list_filter_filter. do 2 f_equal.
      apply list_filter_iff. intros k. naive_solver.
    + rewrite IH, filter_cons_True by done.
      rewrite <- app_assoc. simpl. do 3 f_equal.
      rewrite list_filter_filter. apply list_filter_iff. intros k.
      set_solver.
Qed.





(** ** Grouping by status *)

























(** ** References and their siblings *)


Lemma get_siblings_of_ref d : get (siblings_of d) "$ref" = None.
Proof.
  unfold siblings_of.
  by rewrite (get_filter d (fun k => negb (String.eqb k "$ref"))).
Qed.

Lemma deref_unfold n root d ref c :
  get d "$ref" = Some (JStr ref) ->
  deref (S n) root (JDict d) c =
  let* (base, c) :=
    match c !! ref with
    | Some cached => Ok (cached, c)
    | None =>
        let* target := resolve_json_pointer root ref in
        let* (base, c) :=
          match target with
          | JDict _ => deref n root target c
          | _ => Ok (target, c)
          end in
        Ok (base, <[ref := base]> c)
    end in
  let* merged := conservative_merge base (JDict (siblings_of d)) in
  Ok (merged, c).
Proof. intros H. simpl. by rewrite H. Qed.




(** ** References that cannot be resolved *)




(** The same below the node: under a property and in a composite branch
    the error ends the walk as well. *)
Lemma unresolved_ref_below_is_fatal :
  iter_elements 5 ref_root
    (JDict [("properties",
             JDict [("a", JDict [("type", JStr "string")]);
                    ("b", JDict [("$ref", JStr "#/Missing")])])]) "" ∅
    = Raise (KeyError NotFound) /\
  iter_elements 5 ref_root
    (JDict [("allOf", JList [JDict [("$ref", JStr "#/Missing")]])]) "" ∅
    = Raise (KeyError NotFound) /\
  iter_elements 5 ref_root
    (JDict [("type", JStr "array");
            ("items", JDict [("$ref", JStr "elsewhere.json#/T")])]) "" ∅
    = Raise ValueError.
Proof. by vm_compute. Qed.


(** ** Merging in place *)

(** C1 fails on the code.  [merge_schemas] copies [base] one level deep,
    so the [required] list and the [properties] dictionary of the copy are
    those of [base], and the merge appends to the one and updates the
    other: after [merge_schemas({"required": ["x"]}, {"required": ["y"]})]
    the base reads [{"required": ["x", "y"]}].  [expand_combinators]
    merges into a one-level copy of the schema in the same way, so it
    changes the document: after the expansion of [S] the document holds
    the names and properties of the [allOf] branch in [S] itself. *)
Theorem merge_schemas_changes_base :
  agent_merge 5 (JDict [("required", JList [JStr "x"])])
                (JDict [("required", JList [JStr "y"])])
    = Ok (Some (JDict [("required", JList [JStr "x"; JStr "y"])]),
          Some (JDict [("required", JList [JStr "x"; JStr "y"])]),
          Some (JDict [("required", JList [JStr "y"])])) /\
  agent_merge 5 (JDict [("properties", JDict [("a", JDict [])])])
                (JDict [("properties", JDict [("b", JDict [])])])
    = Ok (Some (JDict [("properties", JDict [("a", JDict []); ("b", JDict [])])]),
          Some (JDict [("properties", JDict [("a", JDict []); ("b", JDict [])])]),
          Some (JDict [("properties", JDict [("b", JDict [])])])) /\
  agent_expand_in_doc 5 mutation_doc "S"
    = Ok (Some (JDict [("required", JList [JStr "x"; JStr "y"]);
                       ("properties", JDict [("a", JDict []); ("b", JDict [])])]),
          Some (JDict
                  [("S",
                    JDict [("required", JList [JStr "x"; JStr "y"]);
                           ("properties", JDict [("a", JDict []); ("b", JDict [])]);
                           ("allOf",
                            JList [JDict [("required", JList [JStr "y"]);
                                          ("properties", JDict [("b", JDict [])])]])])])) /\
  (let '(d, h) := Agent.load mutation_doc [] in
   Agent.read_back 16 h d = Some mutation_doc).
Proof. by vm_compute. Qed.

(** * Further properties of the code *)

(** ** The conservative merge keeps what the base has *)

Lemma conservative_merge_absent a items r k :
  conservative_merge a (JDict items) = Ok r -> get items k = None ->
  jget r k = jget a k.
Proof.
  intros H Hk. destruct a as [| | | | |d];
    try (destruct items as [|[k1 v1] items]; simpl in H;
         [by inversion H|by destruct (_ || _)]).
  apply conservative_merge_dict in H as (? & out & Heq & -> & H).
  inversion Heq; subst. simpl. by eapply merge_items_absent.
Qed.

(** X1. [conservative_merge] never replaces a value of the base: for a key
    other than [enum] and [required], the result has the base's value when
    the base has the key and the overlay's value otherwise; every key of
    the base stays, and the result is a dictionary. *)
Theorem conservative_merge_first_wins da db r :
  conservative_merge (JDict da) (JDict db) = Ok r ->
  is_dict r /\
  (forall k, k <> "enum" -> k <> "required" ->
     jget r k = match get da k with Some x => Some x | None => get db k end) /\
  (forall k, has da k = true -> jget r k <> None).
Proof.
  intros H. apply conservative_merge_dict in H as (? & out & Heq & -> & H).
  inversion Heq; subst. simpl. split_and!; [done| |].
  - intros k Hk1 Hk2. by apply merge_items_plain.
  - intros k Hk. pose proof (merge_items_keeps _ _ _ _ H Hk) as Hk'.
    unfold has in Hk'. by destruct (get out k).
Qed.

Lemma conservative_merge_first_wins_witness :
  is_dict (JDict [("type", JStr "string"); ("format", JStr "date")]) /\
  (forall k, k <> "enum" -> k <> "required" ->
     jget (JDict [("type", JStr "string"); ("format", JStr "date")]) k
     = match get [("type", JStr "string")] k with
       | Some x => Some x
       | None => get [("type", JStr "integer"); ("format", JStr "date")] k
       end) /\
  (forall k, has [("type", JStr "string")] k = true ->
     jget (JDict [("type", JStr "string"); ("format", JStr "date")]) k <> None).
Proof.
  apply (conservative_merge_first_wins
           [("type", JStr "string")]
           [("type", JStr "integer"); ("format", JStr "date")]).
  vm_compute; reflexivity.
Defined.

(** ** Dereferencing leaves no [$ref] *)

(** X2. When no entry of the cache has a [$ref] key, the node that [deref]
    returns has none either, and the cache it hands back is again free of
    [$ref]: a chain of references is followed to its end. *)
Theorem deref_removes_ref n : forall root schema c res c',
  cache_dereferenced c ->
  deref n root schema c = Ok (res, c') ->
  jget res "$ref" = None /\ cache_dereferenced c'.
Proof.
  induction n as [|n IH]; intros root schema c res c' Hc H; [discriminate|].
  destruct schema as [| | |s|l|d]; try discriminate.
  - simpl in H. destruct (contains "$ref" s); inversion H; subst. done.
  - simpl in H. destruct (existsb _ l); inversion H; subst. done.
  - destruct (get d "$ref") as [ref|] eqn:Href.
    2:{ simpl in H. rewrite Href in H. inversion H; subst. done. }
    destruct ref as [| | |r| |];
      try (simpl in H; rewrite Href in H; discriminate).
    rewrite (deref_unfold _ _ _ _ _ Href) in H.
    apply bind_Ok in H as ([base c1] & Hbase & H).
    apply bind_Ok in H as (merged & Hm & H). inversion H; subst; clear H.
    assert (jget base "$ref" = None /\ cache_dereferenced c') as [Hb Hc'].
    { destruct (c !! r) as [cached|] eqn:Ec.
      - inversion Hbase; subst. split; [by eapply Hc|done].
      - apply bind_Ok in Hbase as (target & _ & Hbase).
        apply bind_Ok in Hbase as ([b c0] & Hd & Hbase). inversion Hbase; subst.
        assert (jget base "$ref" = None /\ cache_dereferenced c0) as [Hb Hc0].
        { destruct target; try (by inversion Hd; subst). by eapply IH. }
        split; [done|]. intros r' b'. rewrite lookup_insert.
        case_decide; [by intros [= <-]|apply Hc0]. }
    split; [|done].
    rewrite (conservative_merge_absent _ _ _ _ Hm); [done|].
    apply get_siblings_of_ref.
Qed.

Lemma deref_removes_ref_witness :
  jget (JDict [("allOf", JList [JDict [("type", JStr "string")]]);
               ("type", JStr "integer")]) "$ref" = None /\
  cache_dereferenced
    (<["#/T" := JDict [("allOf", JList [JDict [("type", JStr "string")]])]]> ∅).
Proof.
  apply (deref_removes_ref 3 ref_root ref_node ∅).
  - intros r b H. by rewrite lookup_empty in H.
  - vm_compute; reflexivity.
Defined.

(** ** Composite flattening keeps the node's own entries *)

(** X3. [flatten_composites] only adds to the dereferenced node: a key of
    that node other than [enum] and [required] has the node's value in the
    result, whatever the branches say, so [allOf], [anyOf] and [oneOf]
    themselves stay in the result; a node that is not a dictionary is
    returned as it is. *)
Theorem flatten_composites_node_wins n root schema c res c' :
  flatten_composites (S n) root schema c = Ok (res, c') ->
  exists node c0,
    deref n root schema c = Ok (node, c0) /\
    (is_dict node -> is_dict res) /\
    (~ is_dict node -> res = node) /\
    (forall k v, k <> "enum" -> k <> "required" ->
       jget node k = Some v -> jget res k = Some v).
Proof.
  rewrite flatten_composites_unfold. intros H.
  apply bind_Ok in H as ([node c0] & Hd & H).
  exists node, c0. split; [done|].
  cut ((is_dict node -> is_dict res) /\ (~ is_dict node -> res = node) /\
       (forall k v, k <> "enum" -> k <> "required" ->
          jget node k = Some v -> jget res k = Some v)); [done|].
  refine (foldl_Ok_inv _
    (fun sc => (is_dict node -> is_dict sc.1) /\ (~ is_dict node -> sc.1 = node) /\
               (forall k v, k <> "enum" -> k <> "required" ->
                  jget node k = Some v -> jget sc.1 k = Some v))
    ["allOf"; "anyOf"; "oneOf"] (node, c0) (res, c') _ _ _ H); [done| |done].
  intros [s c1] key [s' c2] (Hdict & Hnot & Hkeep) _ Hstep.
  unfold composite_step in Hstep. simpl in *.
  apply bind_Ok in Hstep as (br & Hbr & Hstep).
  destruct br as [subs|]; [|by inversion Hstep; subst].
  apply bind_Ok in Hstep as ([merged c3] & Hfold & Hstep).
  apply bind_Ok in Hstep as (s1 & Hs1 & Hstep). inversion Hstep; subst.
  apply composite_branches_Some in Hbr as (d & -> & _).
  apply conservative_merge_dict in Hs1 as (items & out & -> & -> & Hs1).
  split_and!; [done| |].
  - intros Hn. by rewrite <- (Hnot Hn) in Hn.
  - intros k v Hk1 Hk2 Hv. simpl.
    rewrite (merge_items_plain _ _ _ _ Hs1 Hk1 Hk2).
    pose proof (Hkeep k v Hk1 Hk2 Hv) as Hd'. simpl in Hd'. by rewrite Hd'.
Qed.

Lemma flatten_composites_node_wins_witness :
  exists node c0,
    deref 2 JNull whitelist_example ∅ = Ok (node, c0) /\
    (is_dict node ->
       is_dict (JDict [("title", JStr "node");
                       ("allOf", JList [JDict [("title", JStr "branch");
                                               ("type", JStr "string");
                                               ("x-other", JInt 1);
                                               ("x-internal", JBool true)]]);
                       ("type", JStr "string"); ("x-internal", JBool true)])) /\
    (~ is_dict node ->
       JDict [("title", JStr "node");
              ("allOf", JList [JDict [("title", JStr "branch");
                                      ("type", JStr "string");
                                      ("x-other", JInt 1);
                                      ("x-internal", JBool true)]]);
              ("type", JStr "string"); ("x-internal", JBool true)] = node) /\
    (forall k v, k <> "enum" -> k <> "required" ->
       jget node k = Some v ->
       jget (JDict [("title", JStr "node");
                    ("allOf", JList [JDict [("title", JStr "branch");
                                            ("type", JStr "string");
                                            ("x-other", JInt 1);
                                            ("x-internal", JBool true)]]);
                    ("type", JStr "string"); ("x-internal", JBool true)]) k
       = Some v).
Proof.
  apply (flatten_composites_node_wins 2 JNull whitelist_example ∅ _ ∅).
  vm_compute; reflexivity.
Defined.

(** ** Lists without repetition *)

Lemma _list_extend_unique_add_all dst src :
  Errors._list_extend_unique dst src = add_all dst src.
Proof. reflexivity. Qed.

Lemma add_all_appended src : forall dst,
  exists new, add_all dst src = dst ++ new /\ NoDup new /\
              (forall x, x ∈ new <-> x ∈ src /\ x ∉ dst).
Proof.
  induction src as [|x src IH]; intros dst.
  { exists []. rewrite app_nil_r. split_and!; [done|constructor|].
    intros x. split; [by intros ?%elem_of_nil|by intros [?%elem_of_nil _]]. }
  unfold add_all in *. simpl.
  destruct (existsb (String.eqb x) dst) eqn:E.
  - destruct (IH dst) as (new & Heq & Hnd & Hin). exists new.
    split_and!; [done..|]. intros y. rewrite Hin, elem_of_cons.
    apply existsb_exists in E as (x' & Hx' & ->%String.eqb_eq).
    apply list_elem_of_In in Hx'. naive_solver.
  - destruct (IH (dst ++ [x])) as (new & Heq & Hnd & Hin).
    assert (Hx : x ∉ dst).
    { intros Hx. apply list_elem_of_In in Hx.
      assert (existsb (String.eqb x) dst = true); [|congruence].
      apply existsb_exists. exists x. by rewrite String.eqb_refl. }
    exists (x :: new). split_and!.
    + by rewrite Heq, <- app_assoc.
    + apply NoDup_cons. split; [|done]. rewrite Hin, elem_of_app.
      intros [_ Hn]. apply Hn. right. by apply list_elem_of_singleton.
    + intros y. rewrite !elem_of_cons, Hin, elem_of_app, list_elem_of_singleton.
      destruct (decide (y = x)) as [->|]; naive_solver.
Qed.

(** X4. [_list_extend_unique(dst, src)] only appends to [dst], whatever
    [dst] holds: the list after the call is the old list followed by the
    elements of [src] that the old list lacks, each once; it holds exactly
    the elements of both lists; and when the old list is without
    repetition, so is the new one. *)
Theorem _list_extend_unique_spec dst src :
  dst `prefix_of` Errors._list_extend_unique dst src /\
  (forall x, x ∈ Errors._list_extend_unique dst src <-> x ∈ dst \/ x ∈ src) /\
  (exists new, Errors._list_extend_unique dst src = dst ++ new /\ NoDup new /\
               (forall x, x ∈ new <-> x ∈ src /\ x ∉ dst)) /\
  (NoDup dst -> NoDup (Errors._list_extend_unique dst src)).
Proof.
  rewrite _list_extend_unique_add_all. split_and!.
  - apply add_all_prefix.
  - intros x. apply elem_of_add_all.
  - apply add_all_appended.
  - intros Hnd. by apply NoDup_add_all.
Qed.

Lemma _list_extend_unique_spec_witness :
  NoDup ["E1"; "E2"] /\
  Errors._list_extend_unique ["E1"; "E2"] ["E2"; "E3"; "E3"] = ["E1"; "E2"; "E3"] /\
  Errors._list_extend_unique ["E1"; "E1"] ["E2"; "E1"] = ["E1"; "E1"; "E2"] /\
  NoDup (Errors._list_extend_unique ["E1"; "E2"] ["E2"; "E3"; "E3"]).
Proof.
  assert (Hnd : NoDup ["E1"; "E2"]).
  { apply NoDup_cons. split; [|apply NoDup_singleton].
    intros H. apply list_elem_of_singleton in H. discriminate. }
  split; [exact Hnd|]. split; [reflexivity|]. split; [reflexivity|].
  apply (_list_extend_unique_spec ["E1"; "E2"] ["E2"; "E3"; "E3"]), Hnd.
Defined.

(** ** De-duplication, once more *)

Lemma first_seen_NoDup_id {A} `{EqDecision A} (l : list A) :
  NoDup l -> first_seen l = l.
Proof.
  induction 1 as [|x l Hx Hnd IH]; simpl; [done|].
  rewrite IH. f_equal. apply filter_all. intros y Hy ->. done.
Qed.

Lemma row_key_row_of_key k : Errors.row_key (row_of_key k) = k.
Proof. by destruct k as [[[s c] d] e]. Qed.

Lemma dedupe_rows_first_seen rows :
  Errors.dedupe_rows rows = map row_of_key (first_seen (map Errors.row_key rows)).
Proof.
  unfold Errors.dedupe_rows. rewrite dedupe_loop_spec. simpl. f_equal.
  apply filter_all. intros k _. set_solver.
Qed.

(** X5. De-duplicating twice is de-duplicating once, and every row that
    [dedupe_rows] returns has exactly the four columns [Status],
    [ErrorCode], [Description] and [EnumValues], in this order, whatever
    columns the rows it was given have. *)
Theorem dedupe_rows_idempotent rows :
  Errors.dedupe_rows (Errors.dedupe_rows rows) = Errors.dedupe_rows rows /\
  Forall (fun r => keys r = ["Status"; "ErrorCode"; "Description"; "EnumValues"])
         (Errors.dedupe_rows rows) /\
  NoDup (Errors.dedupe_rows rows).
Proof.
  rewrite (dedupe_rows_first_seen (Errors.dedupe_rows rows)).
  rewrite !dedupe_rows_first_seen. split_and!.
  - f_equal. rewrite <- list_fmap_compose.
    erewrite (list_fmap_ext (Errors.row_key ∘ row_of_key) id).
    + rewrite list_fmap_id. apply first_seen_NoDup_id, first_seen_NoDup.
    + intros i k _. apply row_key_row_of_key.
  - apply Forall_forall. intros r Hr.
    apply list_elem_of_fmap in Hr as (k & -> & _). done.
  - apply NoDup_fmap_2_strong; [|apply first_seen_NoDup].
    intros k1 k2 _ _ Heq.
    by rewrite <- (row_key_row_of_key k1), <- (row_key_row_of_key k2), Heq.
Qed.

(** ** The agent's reference resolver and expansion *)

Lemma as_dict_alloc h o v d :
  Agent.as_dict h v = Some d -> Agent.as_dict (h ++ [o]) v = Some d.
Proof.
  destruct v as [| | | |l]; simpl; try discriminate.
  destruct (h !! l) as [ob|] eqn:E; [|discriminate].
  by rewrite (lookup_app_l_Some _ _ _ _ E).
Qed.

Lemma as_list_alloc_dict h d v :
  Agent.as_list h v = None -> Agent.as_list (h ++ [Agent.ODict d]) v = None.
Proof.
  destruct v as [| | | |l]; simpl; try done.
  destruct (h !! l) as [ob|] eqn:E.
  - by rewrite (lookup_app_l_Some _ _ _ _ E).
  - intros _. apply lookup_ge_None in E.
    destruct (decide (l = length h)) as [->|Hne].
    + by rewrite list_lookup_middle.
    + rewrite lookup_ge_None_2; [done|]. rewrite length_app. simpl. lia.
Qed.

(** X6. On a string, [resolve_ref] never raises and always answers with a
    dictionary: either a node of the store reached from the document by
    keys, the store being left as it is, or an empty dictionary allocated
    for the occasion.  A value that is empty or [None] gives the empty
    dictionary as well. *)
Theorem resolve_ref_always_dict doc ref h :
  (exists r, ref = Agent.VStr r) \/ Agent.truthy h ref = false ->
  exists v h' d,
    Agent.resolve_ref doc ref h = Ok (v, h') /\
    Agent.as_dict h' v = Some d /\
    ((h' = h /\ exists parts, Agent.follow h doc parts = Some v) \/
     (h' = h ++ [Agent.ODict []] /\ v = Agent.VRef (length h) /\ d = [])).
Proof.
  intros Href.
  assert (Hempty : exists v h' d,
    Ok (Agent.VRef (length h), h ++ [Agent.ODict []]) = Ok (v, h') /\
    Agent.as_dict h' v = Some d /\
    ((h' = h /\ exists parts, Agent.follow h doc parts = Some v) \/
     (h' = h ++ [Agent.ODict []] /\ v = Agent.VRef (length h) /\ d = []))).
  { exists (Agent.VRef (length h)), (h ++ [Agent.ODict []]), [].
    split_and!; [done| |by right]. simpl. by rewrite list_lookup_middle. }
  unfold Agent.resolve_ref. simpl Agent.alloc. cbv zeta.
  destruct (Agent.truthy h ref) eqn:Et; simpl negb; cbv iota; [|exact Hempty].
  destruct Href as [[r ->]|Hf]; [|discriminate].
  destruct (startswith r "#/"); simpl negb; cbv iota; [|exact Hempty].
  destruct (Agent.follow h doc (split "/" (lstrip "#/" r))) as [node|] eqn:Ef;
    [|exact Hempty].
  destruct (Agent.as_dict h node) as [d|] eqn:Ed; [|exact Hempty].
  exists node, h, d. split_and!; [done..|]. left. eauto.
Qed.

Lemma resolve_ref_always_dict_witness :
  exists v h' d,
    Agent.resolve_ref (Agent.VRef 1%nat) (Agent.VStr "#/T")
      [Agent.ODict [("type", Agent.VStr "object")];
       Agent.ODict [("T", Agent.VRef 0%nat)]] = Ok (v, h') /\
    Agent.as_dict h' v = Some d.
Proof.
  destruct (resolve_ref_always_dict (Agent.VRef 1%nat) (Agent.VStr "#/T")
              [Agent.ODict [("type", Agent.VStr "object")];
               Agent.ODict [("T", Agent.VRef 0%nat)]])
    as (v & h' & d & H1 & H2 & _).
  - left. by eexists.
  - exists v, h', d. by split.
Defined.

(** X7. On a node none of whose [oneOf], [anyOf] and [allOf] is a list,
    [expand_combinators] is a copy: it returns a new dictionary with the
    entries of the node and leaves every object of the store as it was.
    A value that is not a dictionary is returned as it is. *)
Theorem expand_combinators_copy n doc schema h :
  (forall d comb b,
     Agent.as_dict h schema = Some d ->
     comb ∈ ["oneOf"; "anyOf"; "allOf"] ->
     get d comb = Some b -> Agent.as_list h b = None) ->
  Agent.expand_combinators (S n) doc schema h =
  match Agent.as_dict h schema with
  | Some d => Ok (Agent.VRef (length h), h ++ [Agent.ODict d])
  | None => Ok (schema, h)
  end.
Proof.
  intros Hno. simpl.
  destruct (Agent.as_dict h schema) as [d|] eqn:Ed; [|done].
  rewrite (as_dict_alloc _ _ _ _ Ed).
  assert (Hstep : forall comb, comb ∈ ["oneOf"; "anyOf"; "allOf"] ->
    Agent.as_list (h ++ [Agent.ODict d])
      match get d comb with Some b => b | None => Agent.VNull end = None).
  { intros comb Hin. destruct (get d comb) as [b|] eqn:Eb; [|done].
    apply as_list_alloc_dict. by eapply Hno. }
  rewrite (Hstep "oneOf") by set_solver. simpl.
  rewrite (as_dict_alloc _ _ _ _ Ed).
  rewrite (Hstep "anyOf") by set_solver. simpl.
  rewrite (as_dict_alloc _ _ _ _ Ed).
  by rewrite (Hstep "allOf") by set_solver.
Qed.

Lemma expand_combinators_copy_witness :
  Agent.expand_combinators 1 Agent.VNull (Agent.VRef 0%nat)
    [Agent.ODict [("type", Agent.VStr "string"); ("oneOf", Agent.VStr "none")]]
  = Ok (Agent.VRef 1%nat,
        [Agent.ODict [("type", Agent.VStr "string"); ("oneOf", Agent.VStr "none")];
         Agent.ODict [("type", Agent.VStr "string"); ("oneOf", Agent.VStr "none")]]).
Proof.
  apply (expand_combinators_copy 0 Agent.VNull (Agent.VRef 0%nat)
           [Agent.ODict [("type", Agent.VStr "string");
                         ("oneOf", Agent.VStr "none")]]).
  intros d comb b Hd Hin Hb. inversion Hd; subst.
  repeat (apply elem_of_cons in Hin as [->|Hin]; [by inversion Hb|]).
  by apply elem_of_nil in Hin.
Defined.

(** ** Pointers: composition and escaping *)

Lemma split_nonempty sep s : split sep s <> [].
Proof.
  destruct s as [|c s]; simpl; [done|].
  destruct (Ascii.eqb c sep); [done|]. by destruct (split sep s).
Qed.

Lemma split_app sep a b :
  split sep (a +:+ String sep b) = split sep a ++ split sep b.
Proof.
  induction a as [|c a IH]; simpl.
  - by rewrite Ascii.eqb_refl.
  - destruct (Ascii.eqb c sep); [by rewrite IH|].
    rewrite IH. pose proof (split_nonempty sep a).
    by destruct (split sep a).
Qed.

Lemma descend_app l1 : forall doc l2,
  descend doc (l1 ++ l2) = let* d := descend doc l1 in descend d l2.
Proof.
  induction l1 as [|p l1 IH]; intros doc l2; simpl; [done|].
  destruct (pointer_step doc p); simpl; [apply IH|done].
Qed.

Lemma resolve_json_pointer_slash doc rest :
  starts_clear "#/" rest ->
  resolve_json_pointer doc ("#/" +:+ rest) = descend doc (split "/" rest).
Proof.
  intros H. unfold resolve_json_pointer. simpl.
  destruct rest as [|c rest]; [done|]. simpl in *. by rewrite H.
Qed.

(** X8. Resolving a pointer that is two pointers joined by [/] is resolving
    the first and then the second in what the first reached, errors
    included, provided the first is not empty and neither begins with [#]
    or [/]. *)
Theorem resolve_json_pointer_compose doc p q :
  p <> EmptyString -> starts_clear "#/" p -> starts_clear "#/" q ->
  resolve_json_pointer doc ("#/" +:+ p +:+ "/" +:+ q) =
  let* d := resolve_json_pointer doc ("#/" +:+ p) in
  resolve_json_pointer d ("#/" +:+ q).
Proof.
  intros Hp Hcp Hcq.
  rewrite (resolve_json_pointer_slash doc (p +:+ "/" +:+ q)).
  2:{ by destruct p. }
  rewrite (resolve_json_pointer_slash doc p Hcp).
  change ("/" +:+ q) with (String "/" q). rewrite split_app, descend_app.
  destruct (descend doc (split "/" p)); simpl; [|done].
  by rewrite (resolve_json_pointer_slash _ q Hcq).
Qed.

Lemma resolve_json_pointer_compose_witness :
  resolve_json_pointer
    (JDict [("components", JDict [("schemas", JList [JInt 7])])])
    ("#/" +:+ "components" +:+ "/" +:+ "schemas/0") = Ok (JInt 7) /\
  (let* d := resolve_json_pointer
               (JDict [("components", JDict [("schemas", JList [JInt 7])])])
               ("#/" +:+ "components") in
   resolve_json_pointer d ("#/" +:+ "schemas/0")) = Ok (JInt 7).
Proof.
  split; [reflexivity|].
  rewrite <- (resolve_json_pointer_compose
                (JDict [("components", JDict [("schemas", JList [JInt 7])])])
                "components" "schemas/0"); done.
Defined.

Lemma prefix_cons a s1 c s2 :
  String.prefix (String a s1) (String c s2) = Ascii.eqb a c && String.prefix s1 s2.
Proof.
  simpl. destruct (ascii_dec a c) as [->|Hne].
  - by rewrite Ascii.eqb_refl.
  - by apply Ascii.eqb_neq in Hne as ->.
Qed.

Lemma prefix_tilde c d s :
  String.prefix (String "~" (String d EmptyString)) (String c s) =
  Ascii.eqb c "~" && match s with
                     | String e _ => Ascii.eqb e d
                     | EmptyString => false
                     end.
Proof.
  rewrite prefix_cons, (Ascii.eqb_sym "~" c). f_equal.
  destruct s as [|e s]; [done|].
  rewrite prefix_cons, (Ascii.eqb_sym d e). destruct s; simpl; apply andb_true_r.
Qed.

(** The two replacements of the resolver undo the escaping of a segment. *)
Lemma unescape_escape_segment k :
  replace "~0" "~" (replace "~1" "/" (escape_segment k)) = k.
Proof.
  unfold replace.
  assert (H1 : forall k,
    replace_from "~1" "/" (escape_segment k) 0 =
    (fix esc (k : string) :=
       match k with
       | EmptyString => EmptyString
       | String c k' =>
           if Ascii.eqb c "~" then String "~" (String "0" (esc k'))
           else String c (esc k')
       end) k).
  { clear k. induction k as [|c k IH]; [done|].
    cbn [escape_segment].
    destruct (Ascii.eqb_spec c "~") as [->|Hc].
    - cbn [replace_from]. rewrite prefix_tilde. cbn. by rewrite IH.
    - destruct (Ascii.eqb_spec c "/") as [->|Hc'].
      + cbn [replace_from]. rewrite prefix_tilde. cbn. by rewrite IH.
      + cbn [replace_from]. rewrite prefix_tilde.
        apply Ascii.eqb_neq in Hc. rewrite Hc. cbn. by rewrite IH. }
  rewrite H1. clear H1. induction k as [|c k IH]; [done|].
  destruct (Ascii.eqb_spec c "~") as [->|Hc].
  - cbn [replace_from]. rewrite prefix_tilde. cbn. by rewrite IH.
  - cbn [replace_from]. rewrite prefix_tilde.
    apply Ascii.eqb_neq in Hc. rewrite Hc. cbn. by rewrite IH.
Qed.

Lemma char_in_cons c x s :
  char_in c (String x s) = Ascii.eqb c x || char_in c s.
Proof. reflexivity. Qed.

Lemma split_cons sep c s :
  split sep (String c s) =
  if Ascii.eqb c sep then EmptyString :: split sep s
  else match split sep s with
       | p :: ps => String c p :: ps
       | [] => [String c EmptyString]
       end.
Proof. reflexivity. Qed.

Lemma escape_segment_cons c k :
  escape_segment (String c k) =
  if Ascii.eqb c "~" then String "~" (String "0" (escape_segment k))
  else if Ascii.eqb c "/" then String "~" (String "1" (escape_segment k))
  else String c (escape_segment k).
Proof. reflexivity. Qed.

Lemma split_no_sep sep s :
  char_in sep s = false -> split sep s = [s].
Proof.
  induction s as [|c s IH]; [done|].
  rewrite char_in_cons, split_cons, (Ascii.eqb_sym sep c).
  destruct (Ascii.eqb c sep); [done|]. intros H. by rewrite (IH H).
Qed.

Lemma escape_segment_no_slash k : char_in "/" (escape_segment k) = false.
Proof.
  induction k as [|c k IH]; [done|]. rewrite escape_segment_cons.
  destruct (Ascii.eqb c "~") eqn:E1.
  { by rewrite !char_in_cons, IH. }
  destruct (Ascii.eqb c "/") eqn:E2.
  { by rewrite !char_in_cons, IH. }
  by rewrite char_in_cons, IH, (Ascii.eqb_sym "/" c), E2.
Qed.

Lemma escape_segment_starts_clear k :
  starts_clear "#" k -> starts_clear "#/" (escape_segment k).
Proof.
  destruct k as [|c k]; [done|]. rewrite escape_segment_cons.
  destruct (Ascii.eqb c "~") eqn:E1; [done|].
  destruct (Ascii.eqb c "/") eqn:E2; [done|].
  unfold starts_clear.
  change (char_in c "#/") with (Ascii.eqb c "#" || (Ascii.eqb c "/" || false)).
  change (char_in c "#") with (Ascii.eqb c "#" || false).
  rewrite E2, !orb_false_r. done.
Qed.

(** X9. The resolver reads a segment as RFC 6901 writes it: for every key
    of a dictionary that does not begin with [#], the pointer made of [#/]
    and the escaped key resolves to the value under that key. *)
Theorem resolve_json_pointer_escaped_key d k v :
  starts_clear "#" k -> get d k = Some v ->
  resolve_json_pointer (JDict d) ("#/" +:+ escape_segment k) = Ok v.
Proof.
  intros Hk Hv.
  rewrite resolve_json_pointer_slash by by apply escape_segment_starts_clear.
  rewrite split_no_sep by apply escape_segment_no_slash.
  simpl. unfold pointer_step. by rewrite unescape_escape_segment, Hv.
Qed.

Lemma resolve_json_pointer_escaped_key_witness :
  resolve_json_pointer (JDict [("/pets/~id", JInt 1)])
    ("#/" +:+ escape_segment "/pets/~id") = Ok (JInt 1).
Proof.
  apply (resolve_json_pointer_escaped_key [("/pets/~id", JInt 1)] "/pets/~id");
    reflexivity.
Defined.
